(** * backProject: the video store of [src/index.ts]

    A shallow embedding of the Express handlers of [src/index.ts] and of the
    validation functions they call, followed by the properties of the
    specification that were checked against them.

    Conventions of the embedding.
    - A JavaScript value that can reach the handlers comes out of
      [bodyParser.json()], so it is a JSON value; [undefined] is added because
      reading a missing property produces it.
    - A number is an integer-valued double, written as the integer ([Z]) it
      holds.  This covers what the handlers compute with ([Date.now()],
      string lengths, array indices) and the integer literals of a request
      body; fractional numbers are outside the model, and [NaN] only arises
      from [+req.params.id], where it is [None].
    - A string is a [string]; one character stands for one UTF-16 code unit,
      so that [String.length] is the [length] property.
    - An object is a finite map from property names to values; the order
      of the properties, which only shows in a serialised answer, is not
      kept.  The body of a request is an object: a body that is a JSON array
      has none of the properties the handlers read and behaves like [{}].
    - A function that can throw returns an [outcome].
    - The module-level array [videos] is passed in and out of every handler;
      the readings of the system clock are arguments of the handler that
      takes them, in program order. *)

From Stdlib Require Import Ascii.
From stdpp Require Import gmap strings list fin_maps pretty.

Set Warnings "-register-all".

Local Open Scope Z_scope.

(** ** Values *)

Inductive value : Type :=
| VUndefined
| VNull
| VBool (b : bool)
| VNum (n : Z)
| VStr (s : string)
| VArr (items : list value)
| VObj (props : gmap string value).

Abbreviation object := (gmap string value).

(** [o[k]] and [o.k]: a missing property reads as [undefined]. *)
Definition get (o : object) (k : string) : value :=
  default VUndefined (o !! k).

(** ToBoolean, as used by [if (x)], [x && y] and [x || y]. *)
Definition truthy (v : value) : bool :=
  match v with
  | VUndefined | VNull => false
  | VBool b => b
  | VNum n => negb (n =? 0)
  | VStr s => negb (String.eqb s "")
  | VArr _ | VObj _ => true
  end.

(** [a || b] *)
Definition js_or (a b : value) : value := if truthy a then a else b.

(** [v === undefined || v === null] *)
Definition absent (v : value) : bool :=
  match v with
  | VUndefined | VNull => true
  | _ => false
  end.

(** [Array.isArray(v)] *)
Definition Array_isArray (v : value) : bool :=
  match v with
  | VArr _ => true
  | _ => false
  end.

(** [v === n] for a number [n]; [None] is [NaN], which equals nothing. *)
Definition strict_eq_number (v : value) (n : option Z) : bool :=
  match v, n with
  | VNum a, Some b => a =? b
  | _, _ => false
  end.

(** [enumValues.includes(item)] on an array of strings: SameValueZero only
    relates a string to an equal string. *)
Definition includes (enumValues : list string) (item : value) : bool :=
  match item with
  | VStr s => bool_decide (s ∈ enumValues)
  | _ => false
  end.

(** ** Exceptions *)

Inductive exn : Type := TypeError | RangeError.

Inductive outcome (A : Type) : Type :=
| Returns (a : A)
| Throws (e : exn).
Arguments Returns {A} a.
Arguments Throws {A} e.

#[global] Instance outcome_ret : MRet outcome := fun A a => Returns a.
#[global] Instance outcome_bind : MBind outcome := fun A B f m =>
  match m with
  | Returns a => f a
  | Throws e => Throws e
  end.

(** ** Numbers as strings

    [`${x}`] on a number is Number::toString.  An integer below [2^53] in
    magnitude is written with all its digits.  From [2^53] on, a double is
    written with the fewest significant digits that read back as the same
    double (the closest such digits, as V8 and the recommendation of the
    standard choose them), followed by zeros up to 21 digits and in
    exponent form beyond.  The numbers of the model are the integers a
    double holds exactly; the function rounds its argument to the nearest
    double first, as [JSON.parse] does with an integer literal, which makes
    it total. *)

(** The double nearest to the integer [a >= 0] (ties to even), as the
    integer it holds; from [2^1024 - 2^970] on the result is [2^1024],
    which stands for Infinity. *)
Definition nearest_double (a : Z) : Z :=
  if a <? 9007199254740992 then a
  else
    let e := Z.log2 a - 52 in
    let q := a / 2 ^ e in
    let r := a mod 2 ^ e in
    let half := 2 ^ (e - 1) in
    (if (half <? r) || ((r =? half) && Z.odd q) then q + 1 else q) * 2 ^ e.

(** The candidates [(s, n)] with [k] digits for the double [x]: [s] has
    [k] digits and [s * 10^(n - k)] rounds to [x]. *)
(** The number of decimal digits of [x > 0], for [x] below [10^fuel]. *)
Fixpoint decimal_digits (fuel : nat) (x : Z) : Z :=
  match fuel with
  | O => 0
  | S fuel => if x <? 10 then 1 else 1 + decimal_digits fuel (x / 10)
  end.

Definition shortest_candidates (x : Z) (k : Z) : list (Z * Z) :=
  let d := decimal_digits 400 x in
  n ← [d; d + 1];
  s ← [x / 10 ^ (n - k); x / 10 ^ (n - k) + 1];
  if (k <=? n) && (10 ^ (k - 1) <=? s) && (s <? 10 ^ k)
     && (nearest_double (s * 10 ^ (n - k)) =? x)
  then [(s, n)] else [].

(** The candidate closest to [x], an even [s] winning a tie. *)
Definition closest (x k : Z) (candidates : list (Z * Z)) : option (Z * Z) :=
  foldr (λ c best,
           match best with
           | None => Some c
           | Some b =>
               let distance (c : Z * Z) := Z.abs (c.1 * 10 ^ (c.2 - k) - x) in
               if (distance c <? distance b)
                  || ((distance c =? distance b) && Z.even c.1)
               then Some c else Some b
           end) None candidates.

Fixpoint shortest (x : Z) (k : Z) (fuel : nat) : option (Z * Z * Z) :=
  match fuel with
  | O => None
  | S fuel =>
      match closest x k (shortest_candidates x k) with
      | Some (s, n) => Some (s, n, k)
      | None => shortest x (k + 1) fuel
      end
  end.

Definition zeros (n : Z) : string :=
  String.concat "" (replicate (Z.to_nat n) "0").

(** Number::toString of the double nearest to the integer [n]. *)
Definition Number_toString (n : Z) : string :=
  let x := nearest_double (Z.abs n) in
  let sign : string := if n <? 0 then "-" else "" in
  if x <? 9007199254740992 then pretty n
  else if 2 ^ 1024 <=? x then sign +:+ "Infinity"
  else
    match shortest x 1 17 with
    | Some (s, n, k) =>
        let digits := pretty s in
        if n <=? 21 then sign +:+ digits +:+ zeros (n - k)
        else
          match digits with
          | String first rest =>
              sign +:+ String first (if k =? 1 then "" else "." +:+ rest)
              +:+ "e+" +:+ pretty (n - 1)
          | EmptyString => ""
          end
    | None => pretty n
    end.

(** ** String conversion

    [`${v}`] applies ToString.  For an object this calls the first callable
    of its [toString] and [valueOf]: a JSON object inherits
    [Object.prototype.toString], unless it has a property [toString] of its
    own, which is never callable; the inherited [valueOf] then returns the
    object itself and the conversion throws a TypeError.  An array is joined
    with commas, [null] and [undefined] elements giving the empty string. *)
Fixpoint toString (v : value) : outcome string :=
  match v with
  | VUndefined => Returns "undefined"
  | VNull => Returns "null"
  | VBool true => Returns "true"
  | VBool false => Returns "false"
  | VNum n => Returns (Number_toString n)
  | VStr s => Returns s
  | VArr items =>
      let element (x : value) : outcome string :=
        if absent x then Returns "" else toString x in
      (fix join (l : list value) : outcome string :=
         match l with
         | [] => Returns ""
         | [x] => element x
         | x :: rest =>
             s ← element x; r ← join rest; Returns (s +:+ "," +:+ r)
         end) items
  | VObj props =>
      match props !! "toString" with
      | Some _ => Throws TypeError
      | None => Returns "[object Object]"
      end
  end.

(** ** Validation rules *)

Record ValidationRule : Type := {
  fieldName : string;
  isRequired : option bool;
  minLength : option Z;
  maxLength : option Z;
  isString : option bool;
  isArray : option bool;
  enumValues : option (list string)
}.

(** Truth value of an optional boolean flag: a flag left out is [undefined]. *)
Definition flag (f : option bool) : bool := default false f.

(** The [for ... of] loop of [validateField]: [Some] message is the [return]
    inside the loop, [None] is the loop running to its end. *)
Fixpoint checkEnum (fieldName : string) (enumValues : list string)
    (items : list value) : outcome (option string) :=
  match items with
  | [] => Returns None
  | item :: rest =>
      if negb (includes enumValues item)
      then s ← toString item;
           Returns (Some ("Invalid " +:+ fieldName +:+ ": " +:+ s))
      else checkEnum fieldName enumValues rest
  end.

(** The elements a [for ... of] loop visits; [validateField] only reaches its
    loop with an array. *)
Definition elements (v : value) : list value :=
  match v with
  | VArr items => items
  | _ => []
  end.

(** [if (c) { return msg; } rest]: a check either leaves the function with
    its message or falls through to the statements after it. *)
Definition check (failed : option string) (rest : outcome (option string))
    : outcome (option string) :=
  match failed with
  | Some message => Returns (Some message)
  | None => rest
  end.

Definition validateField (value : value) (rules : ValidationRule)
    : outcome (option string) :=
  let fieldName := rules.(fieldName) in
  if flag rules.(isRequired) && absent value
  then Returns (Some (fieldName +:+ " is required."))
  else
    let arrayChecks : outcome (option string) :=
      if flag rules.(isArray) && negb (Array_isArray value)
      then Returns (Some (fieldName +:+ " must be an array."))
      else
        match rules.(enumValues) with
        | Some enumValues =>
            if flag rules.(isArray)
            then checkEnum fieldName enumValues (elements value)
            else Returns None
        | None => Returns None
        end in
    if flag rules.(isString)
    then
      match value with
      | VStr s =>
          let length := Z.of_nat (String.length s) in
          check
            match rules.(minLength) with
            | Some minLength =>
                if length <? minLength
                then Some ("Invalid " +:+ fieldName +:+ " length (minimum "
                             +:+ Number_toString minLength
                             +:+ " characters).")
                else None
            | None => None
            end
            (check
               match rules.(maxLength) with
               | Some maxLength =>
                   if length >? maxLength
                   then Some ("Invalid " +:+ fieldName +:+ " length (maximum "
                                +:+ Number_toString maxLength
                                +:+ " characters).")
                   else None
               | None => None
               end
               arrayChecks)
      | _ => Returns (Some (fieldName +:+ " must be a string."))
      end
    else arrayChecks.

(** ** Requests *)

(** [req.params.id] after the unary plus ([None] for [NaN]), and
    [req.body]. *)
Record Request : Type := {
  params_id : option Z;
  body : object
}.

(** ** The entity validator *)

(** [Object.values(VideoQuality)], in declaration order. *)
Definition VideoQuality : list string :=
  ["144p"; "240p"; "360p"; "480p"; "720p"; "1080p"; "1440p"; "2160p"].

Definition validationRules : list ValidationRule :=
  [ {| fieldName := "title"; isRequired := Some true; isString := Some true;
       minLength := Some 1; maxLength := Some 40;
       isArray := None; enumValues := None |};
    {| fieldName := "author"; isRequired := Some true; isString := Some true;
       minLength := Some 1; maxLength := Some 20;
       isArray := None; enumValues := None |};
    {| fieldName := "availableResolutions"; isArray := Some true;
       isRequired := Some true; enumValues := Some VideoQuality;
       isString := None; minLength := None; maxLength := None |} ].

(** [if (validationError)] on a [string | null]: [null] and the empty string
    are falsy. *)
Definition truthy_message (m : option string) : bool :=
  match m with
  | Some s => negb (String.eqb s "")
  | None => false
  end.

(** The loop over the rules, with [errors] as it stands when the loop
    reaches [rules]. *)
Fixpoint validateRules (rules : list ValidationRule) (req : Request)
    (errors : list string) : outcome (list string) :=
  match rules with
  | [] => Returns errors
  | rule :: rest =>
      validationError ← validateField (get req.(body) rule.(fieldName)) rule;
      validateRules rest req
        (if truthy_message validationError
         then errors ++ [default "" validationError]
         else errors)
  end.

Definition validateVideoInput (req : Request) : outcome (list string) :=
  validateRules validationRules req [].

(** ** Dates

    A [Date] holds a time value: milliseconds since 1970-01-01T00:00:00Z, or
    NaN when the argument of the constructor is further than 8.64e15 ms from
    the epoch.  [toISOString] throws a RangeError on such a date and
    otherwise prints [YYYY-MM-DDTHH:mm:ss.sssZ] in the proleptic Gregorian
    calendar, the year with a sign and six digits when it is not in
    0..9999. *)

Definition msPerDay : Z := 86400000.

(** Day number (days since the epoch) to year, month (1..12), day (1..31). *)
Definition civil_from_days (z : Z) : Z * Z * Z :=
  let z := z + 719468 in
  let era := z / 146097 in
  let doe := z mod 146097 in
  let yoe := (doe - doe / 1460 + doe / 36524 - doe / 146096) / 365 in
  let doy := doe - (365 * yoe + yoe / 4 - yoe / 100) in
  let mp := (5 * doy + 2) / 153 in
  let d := doy - (153 * mp + 2) / 5 + 1 in
  let m := if mp <? 10 then mp + 3 else mp - 9 in
  let y := yoe + era * 400 + (if m <=? 2 then 1 else 0) in
  (y, m, d).

(** [n] written with exactly [width] decimal digits, [0 <= n < 10^width]. *)
Fixpoint pad (width : nat) (n : Z) : string :=
  match width with
  | O => ""
  | S w =>
      pad w (n / 10)
      +:+ String (Ascii.ascii_of_nat (48 + Z.to_nat (n mod 10))) ""
  end.

Definition year_string (y : Z) : string :=
  if (0 <=? y) && (y <=? 9999) then pad 4 y
  else (if y <? 0 then "-" else "+") +:+ pad 6 (Z.abs y).

Definition toISOString (t : Z) : outcome string :=
  if (t <? -8640000000000000) || (8640000000000000 <? t)
  then Throws RangeError
  else
    let '(y, m, d) := civil_from_days (t / msPerDay) in
    let ms := t mod msPerDay in
    Returns (year_string y +:+ "-" +:+ pad 2 m +:+ "-" +:+ pad 2 d
             +:+ "T" +:+ pad 2 (ms / 3600000)
             +:+ ":" +:+ pad 2 (ms / 60000 mod 60)
             +:+ ":" +:+ pad 2 (ms / 1000 mod 60)
             +:+ "." +:+ pad 3 (ms mod 1000) +:+ "Z").

(** [Date.parse] on the format [toISOString] writes (the only strings it is
    applied to below); [None] is [NaN]. *)

Definition days_from_civil (y m d : Z) : Z :=
  let y := if m <=? 2 then y - 1 else y in
  let era := y / 400 in
  let yoe := y mod 400 in
  let mp := if m >? 2 then m - 3 else m + 9 in
  let doy := (153 * mp + 2) / 5 + d - 1 in
  let doe := yoe * 365 + yoe / 4 - yoe / 100 + doy in
  era * 146097 + doe - 719468.

Definition digit (c : Ascii.ascii) : option Z :=
  let n := Z.of_nat (Ascii.nat_of_ascii c) in
  if (48 <=? n) && (n <=? 57) then Some (n - 48) else None.

(** Reads [width] decimal digits off the front of [s], after the digits
    whose value is [acc]. *)
Fixpoint digits (width : nat) (acc : Z) (s : string) : option (Z * string) :=
  match width, s with
  | O, _ => Some (acc, s)
  | S w, String c rest => d ← digit c; digits w (10 * acc + d) rest
  | S _, EmptyString => None
  end.

Definition literal (c : Ascii.ascii) (s : string) : option string :=
  match s with
  | String c' rest => if Ascii.eqb c c' then Some rest else None
  | EmptyString => None
  end.

(** Reads the fields of [layout] off the front of [s]: each is a separator
    followed by a number of the given width. *)
Fixpoint fields (layout : list (Ascii.ascii * nat)) (s : string)
    : option (list Z * string) :=
  match layout with
  | [] => Some ([], s)
  | (separator, width) :: layout =>
      match literal separator s with
      | Some r =>
          match digits width 0 r with
          | Some (n, r) =>
              match fields layout r with
              | Some (ns, r) => Some (n :: ns, r)
              | None => None
              end
          | None => None
          end
      | None => None
      end
  end.

Definition year_field (s : string) : option (Z * string) :=
  match s with
  | String c r =>
      if Ascii.eqb c "+" then digits 6 0 r
      else if Ascii.eqb c "-"
           then match digits 6 0 r with
                | Some (y, r) => Some (- y, r)
                | None => None
                end
           else digits 4 0 s
  | EmptyString => None
  end.

Definition Date_parse (s : string) : option Z :=
  match year_field s with
  | Some (y, r) =>
      match fields [("-"%char, 2%nat); ("-"%char, 2%nat); ("T"%char, 2%nat);
                    (":"%char, 2%nat); (":"%char, 2%nat); ("."%char, 3%nat)]
              r with
      | Some ([m; d; hh; mm; ss; sss], r) =>
          let t := days_from_civil y m d * msPerDay
                   + hh * 3600000 + mm * 60000 + ss * 1000 + sss in
          match toISOString t with
          | Returns s' => if String.eqb r "Z" && String.eqb s' s
                          then Some t else None
          | Throws _ => None
          end
      | _ => None
      end
  | None => None
  end.

(** The time values a [Date] can hold. *)
Definition valid_time (t : Z) : Prop :=
  -8640000000000000 ≤ t ≤ 8640000000000000.

(** ** The store and the handlers *)

(** [findIndex]: the index of the first element satisfying [p], or -1;
    [i] is the index of the head of [l]. *)
Fixpoint findIndexFrom {A : Type} (p : A → bool) (i : Z) (l : list A) : Z :=
  match l with
  | [] => -1
  | x :: rest => if p x then i else findIndexFrom p (i + 1) rest
  end.

Definition findIndex {A : Type} (p : A → bool) (l : list A) : Z :=
  findIndexFrom p 0 l.

(** [l.splice(start, deleteCount, ...items)], the array after the call.  A
    negative [start] counts from the end, and both arguments are clamped to
    the array. *)
Definition splice {A : Type} (start deleteCount : Z) (items l : list A)
    : list A :=
  let len := Z.of_nat (length l) in
  let from := if start <? 0 then Z.max (len + start) 0 else Z.min start len in
  let count := Z.min (Z.max deleteCount 0) (len - from) in
  take (Z.to_nat from) l ++ items ++ drop (Z.to_nat (from + count)) l.

(** What a handler does with [res]. *)
Inductive Response : Type :=
| res_send (body : value)                       (* res.send(body) *)
| res_status_send (code : Z)                    (* res.status(code).send() *)
| res_status_json (code : Z) (body : value).    (* res.status(code).json(body) *)

(** The body of the 400 answers. *)
Definition errorsMessages (validationErrors : list string) : value :=
  VObj (list_to_map
    [("errorsMessages",
      VArr ((λ message,
               VObj (list_to_map [("message", VStr message);
                                  ("field", VStr "validation")]))
            <$> validationErrors))]).

(** A handler takes the array [videos] and gives its answer, or the
    exception it lets escape, and the array as it leaves it. *)
Definition handler : Type :=
  list object → outcome Response * list object.

(** The callback of the three [findIndex] calls:
    [(video) => video.id === +req.params.id]. *)
Definition has_id (id : option Z) (video : object) : bool :=
  strict_eq_number (get video "id") id.

(** [app.get("/videos")] *)
Definition get_videos (req : Request) : handler := λ videos,
  (Returns (res_send (VArr (VObj <$> videos))), videos).

(** [app.get("/videos/:id")] *)
Definition get_videos_id (req : Request) : handler := λ videos,
  let videoIndex :=
    findIndex (has_id req.(params_id)) videos in
  if negb (videoIndex =? -1)
  then (Returns (res_send
                   (from_option VObj VUndefined
                      (videos !! Z.to_nat videoIndex))), videos)
  else (Returns (res_send (VNum 404)), videos).

(** [app.post("/videos")]; [now_id], [now_createdAt] and
    [now_publicationDate] are the clock readings of [Date.now()],
    [new Date()] and [Date.now()], in the order the object literal takes
    them. *)
Definition post_videos (now_id now_createdAt now_publicationDate : Z)
    (req : Request) : handler := λ videos,
  match validateVideoInput req with
  | Throws e => (Throws e, videos)
  | Returns validationErrors =>
      if Z.of_nat (length validationErrors) >? 0
      then (Returns (res_status_json 400 (errorsMessages validationErrors)),
            videos)
      else
        let newVideo : outcome object :=
          createdAt ← toISOString now_createdAt;
          publicationDate ← toISOString (now_publicationDate + 86400000);
          Returns (list_to_map
            [("id", VNum now_id);
             ("title", get req.(body) "title");
             ("author", get req.(body) "author");
             ("canBeDownloaded",
              js_or (get req.(body) "canBeDownloaded") (VBool false));
             ("minAgeRestriction",
              js_or (get req.(body) "minAgeRestriction") VNull);
             ("createdAt", VStr createdAt);
             ("publicationDate", VStr publicationDate);
             ("availableResolutions",
              js_or (get req.(body) "availableResolutions") (VArr []))]) in
        match newVideo with
        | Throws e => (Throws e, videos)
        | Returns newVideo =>
            (Returns (res_status_json 201 (VObj newVideo)),
             videos ++ [newVideo])
        end
  end.

(** [{...a, ...b}]: the properties of [b], then those of [a] that [b] does
    not have; spreading [undefined] adds nothing. *)
Definition spread (a : option object) (b : object) : object :=
  b ∪ default ∅ a.

(** [app.put("/videos/:id")] *)
Definition put_videos_id (req : Request) : handler := λ videos,
  match validateVideoInput req with
  | Throws e => (Throws e, videos)
  | Returns validationErrors =>
      if Z.of_nat (length validationErrors) >? 0
      then (Returns (res_status_json 400 (errorsMessages validationErrors)),
            videos)
      else
        let videoIndex :=
          findIndex (has_id req.(params_id)) videos in
        if negb (videoIndex =? -1)
        then (Returns (res_status_send 204),
              splice videoIndex 1
                [spread (videos !! Z.to_nat videoIndex) req.(body)] videos)
        else (Returns (res_status_json 404
                (VObj (list_to_map
                   [("errorsMessages",
                     VArr [VObj (list_to_map
                             [("message", VStr "Video not found");
                              ("field", VStr "id")])])]))),
              videos)
  end.

(** [app.delete("/videos/:id")] *)
Definition delete_videos_id (req : Request) : handler := λ videos,
  let index :=
    findIndex (has_id req.(params_id)) videos in
  if negb (index =? -1)
  then (Returns (res_send (VNum 204)), splice index 1 [] videos)
  else (Returns (res_send (VNum 404)), videos).

(** ** Sequences of requests *)

Inductive Operation : Type :=
| List
| Get (req : Request)
| Create (now_id now_createdAt now_publicationDate : Z) (req : Request)
| Update (req : Request)
| Delete (req : Request).

Definition perform (op : Operation) : handler :=
  match op with
  | List => get_videos {| params_id := None; body := ∅ |}
  | Get req => get_videos_id req
  | Create now_id now_createdAt now_publicationDate req =>
      post_videos now_id now_createdAt now_publicationDate req
  | Update req => put_videos_id req
  | Delete req => delete_videos_id req
  end.

(** The array after a sequence of requests, each served to its end before
    the next. *)
Definition run (ops : list Operation) (videos : list object) : list object :=
  foldl (λ videos op, (perform op videos).2) videos ops.

(** ** Vocabulary of the properties *)

(** The time value of a date property of an entity. *)
Definition date_of (video : object) (k : string) : option Z :=
  match get video k with
  | VStr s => Date_parse s
  | _ => None
  end.

(** The payloads C7 is about: a [title] of length 0 or above 40, an [author]
    of length 0 or above 20, or an [availableResolutions] with an element
    outside the enum. *)
Definition out_of_range (body : object) : Prop :=
  (∃ s, get body "title" = VStr s ∧
        (String.length s = 0 ∨ 40 < String.length s)%nat)
  ∨ (∃ s, get body "author" = VStr s ∧
          (String.length s = 0 ∨ 20 < String.length s)%nat)
  ∨ (∃ items item, get body "availableResolutions" = VArr items ∧
                   item ∈ items ∧ includes VideoQuality item = false).

(** The ids of the stored entities, in the order of the array. *)
Definition ids (videos : list object) : list value :=
  (λ video, get video "id") <$> videos.

(** The answers of a sequence of requests, in order. *)
Fixpoint answers (ops : list Operation) (videos : list object)
    : list (outcome Response) :=
  match ops with
  | [] => []
  | op :: ops => (perform op videos).1 :: answers ops (perform op videos).2
  end.

Definition is_Create (op : Operation) : Prop :=
  match op with
  | Create _ _ _ _ => True
  | _ => False
  end.

(** The answer of a Create that succeeded, with the entity it returns. *)
Definition created (newVideo : object) : outcome Response :=
  Returns (res_status_json 201 (VObj newVideo)).

(** An Update whose payload has no property [id]; any other request. *)
Definition keeps_id (op : Operation) : Prop :=
  match op with
  | Update req => req.(body) !! "id" = None
  | _ => True
  end.

(** The clock readings that the Creates of a sequence use as ids. *)
Definition now_ids (ops : list Operation) : list Z :=
  omap (λ op, match op with
              | Create now_id _ _ _ => Some now_id
              | _ => None
              end) ops.

(** What a rule asks of a value, read off its flags: a required value is
    present, a string value lies within the length bounds, an array value
    has its elements in the enum when there is one. *)
Definition accepts (value : value) (rules : ValidationRule) : Prop :=
  (flag rules.(isRequired) = true → absent value = false)
  ∧ (flag rules.(isString) = true →
     ∃ s, value = VStr s ∧
          (∀ m, rules.(minLength) = Some m → m ≤ Z.of_nat (String.length s)) ∧
          (∀ M, rules.(maxLength) = Some M → Z.of_nat (String.length s) ≤ M))
  ∧ (flag rules.(isArray) = true →
     ∃ items, value = VArr items ∧
              ∀ enum, rules.(enumValues) = Some enum →
                      Forall (λ item, includes enum item = true) items).

(** The payloads, and the entities, that satisfy the three rules. *)
Definition valid_payload (body : object) : Prop :=
  (∃ s, get body "title" = VStr s ∧ (1 ≤ String.length s ≤ 40)%nat)
  ∧ (∃ s, get body "author" = VStr s ∧ (1 ≤ String.length s ≤ 20)%nat)
  ∧ (∃ items, get body "availableResolutions" = VArr items ∧
              Forall (λ item, includes VideoQuality item = true) items).

(** The join of [toString] on an array, by name. *)
Fixpoint joinElements (l : list value) : outcome string :=
  match l with
  | [] => Returns ""
  | [x] => if absent x then Returns "" else toString x
  | x :: rest =>
      s ← (if absent x then Returns "" else toString x);
      r ← joinElements rest; Returns (s +:+ "," +:+ r)
  end.

(** The object literal of [app.post("/videos")], with the two dates as the
    strings [toISOString] returned. *)
Definition newVideo_of (now_id : Z) (createdAt publicationDate : string)
    (body : object) : object :=
  list_to_map
    [("id", VNum now_id);
     ("title", get body "title");
     ("author", get body "author");
     ("canBeDownloaded", js_or (get body "canBeDownloaded") (VBool false));
     ("minAgeRestriction", js_or (get body "minAgeRestriction") VNull);
     ("createdAt", VStr createdAt);
     ("publicationDate", VStr publicationDate);
     ("availableResolutions",
      js_or (get body "availableResolutions") (VArr []))].

(** The names of the properties of that literal. *)
Definition entity_keys : gset string :=
  list_to_set ["id"; "title"; "author"; "canBeDownloaded"; "minAgeRestriction";
               "createdAt"; "publicationDate"; "availableResolutions"].

(** By how much a request answered [answer] changed the number of stored
    entities. *)
Definition size_change (op : Operation) (answer : outcome Response) : Z :=
  match op, answer with
  | Create _ _ _ _, Returns (res_status_json 201 _) => 1
  | Delete _, Returns (res_send (VNum 204)) => -1
  | _, _ => 0
  end.

(** * Properties *)

(** ** Dates: the model against known values *)

Example toISOString_epoch :
  toISOString 0 = Returns "1970-01-01T00:00:00.000Z".
Proof. vm_compute. reflexivity. Qed.
Example toISOString_2023 :
  toISOString 1700000000123 = Returns "2023-11-14T22:13:20.123Z".
Proof. vm_compute. reflexivity. Qed.
Example toISOString_leap :
  toISOString 1709164800000 = Returns "2024-02-29T00:00:00.000Z".
Proof. vm_compute. reflexivity. Qed.
Example toISOString_1969 :
  toISOString (-1) = Returns "1969-12-31T23:59:59.999Z".
Proof. vm_compute. reflexivity. Qed.
Example toISOString_bc :
  toISOString (-62198755200000) = Returns "-000001-01-01T00:00:00.000Z".
Proof. vm_compute. reflexivity. Qed.

Example toISOString_year_10000 :
  toISOString 253402300800000 = Returns "+010000-01-01T00:00:00.000Z".
Proof. vm_compute. reflexivity. Qed.
Example toISOString_out_of_range :
  toISOString 8640000000000001 = Throws RangeError.
Proof. vm_compute. reflexivity. Qed.
Example Date_parse_2023 :
  Date_parse "2023-11-14T22:13:20.123Z" = Some 1700000000123.
Proof. vm_compute. reflexivity. Qed.
Example Date_parse_bc :
  Date_parse "-000001-01-01T00:00:00.000Z" = Some (-62198755200000).
Proof. vm_compute. reflexivity. Qed.
Example Date_parse_invalid : Date_parse "2023-02-30T00:00:00.000Z" = None.
Proof. vm_compute. reflexivity. Qed.

(** ** Numbers as strings: the model against known values *)

Example Number_toString_small : Number_toString (-480) = "-480".
Proof. vm_compute. reflexivity. Qed.
Example Number_toString_max_safe :
  Number_toString 9007199254740991 = "9007199254740991".
Proof. vm_compute. reflexivity. Qed.
Example Number_toString_2_53_plus_1 :
  Number_toString 9007199254740993 = "9007199254740992".
Proof. vm_compute. reflexivity. Qed.
Example Number_toString_2_64 :
  Number_toString 18446744073709551616 = "18446744073709552000".
Proof. vm_compute. reflexivity. Qed.
Example Number_toString_20_digits :
  Number_toString 123456789012345678901 = "123456789012345680000".
Proof. vm_compute. reflexivity. Qed.
Example Number_toString_below_1e21 :
  Number_toString 999999999999999868928 = "999999999999999900000".
Proof. vm_compute. reflexivity. Qed.
Example Number_toString_1e21 :
  Number_toString 1000000000000000000000 = "1e+21".
Proof. vm_compute. reflexivity. Qed.
Example Number_toString_12e20 :
  Number_toString (-1200000000000000000000) = "-1.2e+21".
Proof. vm_compute. reflexivity. Qed.
Example Number_toString_1e23 :
  Number_toString 99999999999999991611392 = "1e+23".
Proof. vm_compute. reflexivity. Qed.
Example Number_toString_Infinity :
  Number_toString (2 ^ 1024) = "Infinity".
Proof. vm_compute. reflexivity. Qed.

(** ** The field validator *)

Lemma append_nonempty_r (s t : string) : t ≠ "" → s +:+ t ≠ "".
Proof. destruct s; simpl; [tauto | discriminate]. Qed.

Lemma eqb_empty_false (s : string) : s ≠ "" → String.eqb s "" = false.
Proof. destruct s; [tauto | reflexivity]. Qed.

Lemma checkEnum_message fieldName enumValues items message :
  checkEnum fieldName enumValues items = Returns (Some message) →
  message ≠ "".
Proof.
  induction items as [|item rest IH]; simpl; [discriminate|].
  destruct (includes enumValues item); simpl; [exact IH|].
  destruct (toString item); simpl; [|discriminate].
  intros [= <-]. discriminate.
Qed.

(** Every message of [validateField] has at least one character, so the
    test [if (validationError)] of the caller only tells [null] apart. *)
Lemma validateField_message value rules message :
  validateField value rules = Returns (Some message) → message ≠ "".
Proof.
  unfold validateField, check.
  repeat case_match; simplify_eq; try discriminate;
    try (intros [= <-]; (discriminate || (apply append_nonempty_r; discriminate)));
    apply checkEnum_message.
Qed.

(** Without [isArray] the function never reaches a string conversion. *)
Lemma validateField_no_array value rules :
  flag rules.(isArray) = false →
  ∃ result, validateField value rules = Returns result.
Proof.
  intros Harray. unfold validateField, check. rewrite Harray. simpl.
  repeat case_match; eauto.
Qed.

(** **** C1, as the specification states it, fails: an optional string field
    that is absent is reported as not being a string. *)
Lemma validateField_optional_absent_rejected :
  let rules := {| fieldName := "nickname"; isRequired := Some false;
                  isString := Some true; minLength := None; maxLength := None;
                  isArray := None; enumValues := None |} in
  flag rules.(isRequired) = false ∧ absent VUndefined = true ∧
  validateField VUndefined rules = Returns (Some "nickname must be a string.").
Proof. repeat split. Qed.

(** **** C1, amended.  For a rule that is not required and an absent value
    ([undefined] or [null]), [validateField] returns no error exactly when
    the rule sets neither [isString] nor [isArray]: the type checks of
    steps 2 and 3 are not skipped, only the loop of step 4 is never reached.
    With [isString] the answer is "must be a string", otherwise with
    [isArray] it is "must be an array", whatever [enumValues] is. *)
Theorem validateField_optional_absent (value : value) (rules : ValidationRule) :
  flag rules.(isRequired) = false →
  absent value = true →
  validateField value rules =
    Returns (if flag rules.(isString)
             then Some (rules.(fieldName) +:+ " must be a string.")
             else if flag rules.(isArray)
                  then Some (rules.(fieldName) +:+ " must be an array.")
                  else None)
  ∧ (validateField value rules = Returns None ↔
     flag rules.(isString) = false ∧ flag rules.(isArray) = false).
Proof.
  intros Hrequired Habsent.
  assert (validateField value rules =
    Returns (if flag rules.(isString)
             then Some (rules.(fieldName) +:+ " must be a string.")
             else if flag rules.(isArray)
                  then Some (rules.(fieldName) +:+ " must be an array.")
                  else None)) as Heq.
  { unfold validateField. rewrite Hrequired. simpl.
    destruct value; try discriminate Habsent; simpl;
      destruct (flag rules.(isString)), (flag rules.(isArray)); simpl;
      try reflexivity; by destruct rules.(enumValues). }
  split; [exact Heq|]. rewrite Heq.
  destruct (flag rules.(isString)), (flag rules.(isArray)); split;
    (discriminate || tauto || (intros [??]; discriminate)).
Qed.

Lemma validateField_optional_absent_witness :
  let rules := {| fieldName := "note"; isRequired := None; isString := None;
                  minLength := Some 3; maxLength := None; isArray := None;
                  enumValues := Some ["a"; "b"] |} in
  flag rules.(isRequired) = false ∧ absent VNull = true ∧
  validateField VNull rules = Returns None.
Proof.
  split; [reflexivity|]. split; [reflexivity|].
  refine (proj1 (validateField_optional_absent VNull _ _ _)); reflexivity.
Defined.

(** ** The entity validator *)

(** The loop pushes the result of each rule that is not [null], after what
    [errors] already holds, and stops at the first rule that throws. *)
Lemma validateRules_mapM rules req errors :
  validateRules rules req errors =
    (results ← mapM (λ rule, validateField (get req.(body) rule.(fieldName)) rule)
                    rules;
     Returns (errors ++ omap id results)).
Proof.
  revert errors. induction rules as [|rule rest IH]; intros errors; simpl.
  { by rewrite app_nil_r. }
  destruct (validateField (get req.(body) rule.(fieldName)) rule)
    as [[message|]|e] eqn:Hfield; simpl; [| |reflexivity].
  - apply validateField_message, eqb_empty_false in Hfield.
    rewrite Hfield, IH. simpl.
    destruct (mapM _ rest); simpl; [|reflexivity].
    by rewrite <- app_assoc.
  - rewrite IH. by destruct (mapM _ rest).
Qed.

(** The entity validator applies the field validator to the rules [title],
    [author], [availableResolutions], in this order and to every one of
    them whatever the earlier ones answered; when all three return, it
    returns the results that are not [null], in rule order, and when one
    throws, the exception is that of the entity validator, which returns
    nothing. *)
Lemma validateVideoInput_concat (req : Request) :
  fieldName <$> validationRules = ["title"; "author"; "availableResolutions"]
  ∧ validateVideoInput req =
      (results ← mapM (λ rule, validateField (get req.(body) rule.(fieldName)) rule)
                      validationRules;
       Returns (omap id results)).
Proof.
  split; [reflexivity|].
  unfold validateVideoInput. by rewrite validateRules_mapM.
Qed.

(** The rules of [title] and [author] never throw; the validator returns
    whenever the rule of [availableResolutions] does. *)
Lemma validateVideoInput_returns req resolutions :
  validateField (get req.(body) "availableResolutions")
    {| fieldName := "availableResolutions"; isArray := Some true;
       isRequired := Some true; enumValues := Some VideoQuality;
       isString := None; minLength := None; maxLength := None |}
  = Returns resolutions →
  ∃ title author,
    validateField (get req.(body) "title")
      {| fieldName := "title"; isRequired := Some true; isString := Some true;
         minLength := Some 1; maxLength := Some 40;
         isArray := None; enumValues := None |} = Returns title
    ∧ validateField (get req.(body) "author")
      {| fieldName := "author"; isRequired := Some true; isString := Some true;
         minLength := Some 1; maxLength := Some 20;
         isArray := None; enumValues := None |} = Returns author
    ∧ validateVideoInput req = Returns (omap id [title; author; resolutions]).
Proof.
  intros Hres.
  destruct (validateField_no_array (get req.(body) "title")
    {| fieldName := "title"; isRequired := Some true; isString := Some true;
       minLength := Some 1; maxLength := Some 40;
       isArray := None; enumValues := None |} eq_refl) as [title Htitle].
  destruct (validateField_no_array (get req.(body) "author")
    {| fieldName := "author"; isRequired := Some true; isString := Some true;
       minLength := Some 1; maxLength := Some 20;
       isArray := None; enumValues := None |} eq_refl) as [author Hauthor].
  exists title, author. split; [done|]. split; [done|].
  unfold validateVideoInput. rewrite validateRules_mapM.
  unfold validationRules, mapM. cbn [fieldName].
  by rewrite Htitle, Hauthor, Hres.
Qed.

(** **** C8 does not hold of the code.  On a payload that fails the three
    fields, the field validator returns a message for [title] and one for
    [author], and throws while it builds the message for an element of
    [availableResolutions] that has a [toString] property of its own: the
    exception leaves the loop, and the entity validator returns no list at
    all, the two messages it had collected being lost. *)
Theorem validateVideoInput_throws_after_messages :
  let req := {| params_id := None;
                body := list_to_map
                  [("title", VStr ""); ("author", VNum 7);
                   ("availableResolutions",
                    VArr [VObj (list_to_map [("toString", VNum 1)])])] |} in
  (λ rule, validateField (get req.(body) rule.(fieldName)) rule)
    <$> validationRules =
    [Returns (Some "Invalid title length (minimum 1 characters).");
     Returns (Some "author must be a string.");
     Throws TypeError] ∧
  validateVideoInput req = Throws TypeError.
Proof. split; vm_compute; reflexivity. Qed.

(** All three rules report, in rule order. *)
Example validateVideoInput_all_fields :
  validateVideoInput
    {| params_id := None;
       body := list_to_map
         [("title", VStr ""); ("author", VNum 7);
          ("availableResolutions", VArr [VStr "720p"; VStr "4k"])] |}
  = Returns ["Invalid title length (minimum 1 characters).";
             "author must be a string.";
             "Invalid availableResolutions: 4k"].
Proof. vm_compute. reflexivity. Qed.

(** ** Arrays: [findIndex] and [splice] *)

Section findIndex.
Context {A : Type} (p : A → bool).

Lemma findIndexFrom_cases (i : Z) (l : list A) :
  (findIndexFrom p i l = -1 ∧ Forall (λ x, p x = false) l)
  ∨ (∃ (k : nat) (x : A),
       findIndexFrom p i l = i + Z.of_nat k ∧ l !! k = Some x ∧
       p x = true ∧ Forall (λ y, p y = false) (take k l)).
Proof.
  revert i. induction l as [|x l IH]; intros i; simpl.
  { left. by split. }
  destruct (p x) eqn:Hx.
  - right. exists 0%nat, x. repeat split; [lia|done|by rewrite take_0].
  - destruct (IH (i + 1)) as [[-> Hall]|(k & y & -> & Hk & Hy & Hall)].
    + left. split; [done|]. by constructor.
    + right. exists (S k), y. repeat split; [lia|done..|].
      simpl. by constructor.
Qed.

Lemma findIndex_cases (l : list A) :
  (findIndex p l = -1 ∧ Forall (λ x, p x = false) l)
  ∨ (∃ (k : nat) (x : A),
       findIndex p l = Z.of_nat k ∧ l !! k = Some x ∧
       p x = true ∧ Forall (λ y, p y = false) (take k l)).
Proof.
  destruct (findIndexFrom_cases 0 l) as [?|(k & x & ? & ?)]; [by left|].
  right. exists k, x. by rewrite Z.add_0_l in *.
Qed.

(** [-1] is the answer exactly when no element satisfies [p]. *)
Lemma findIndex_none (l : list A) :
  findIndex p l = -1 ↔ Forall (λ x, p x = false) l.
Proof.
  destruct (findIndex_cases l) as [[??]|(k & x & Hi & Hk & Hx & _)]; [done|].
  split; [lia|]. intros Hall.
  rewrite Forall_forall in Hall.
  apply list_elem_of_lookup_2, Hall in Hk. congruence.
Qed.
End findIndex.

Lemma splice_one {A : Type} (k : nat) (x : A) (items l : list A) :
  l !! k = Some x →
  splice (Z.of_nat k) 1 items l = take k l ++ items ++ drop (S k) l.
Proof.
  intros Hk. apply lookup_lt_Some in Hk. unfold splice.
  destruct (Z.ltb_spec (Z.of_nat k) 0); [lia|].
  rewrite (Z.min_l (Z.of_nat k)) by lia.
  rewrite (Z.max_l 1 0), (Z.min_l 1) by lia.
  by replace (Z.to_nat (Z.of_nat k + 1)) with (S k) by lia; rewrite Nat2Z.id.
Qed.

(** ** The handlers, case by case *)

Lemma toISOString_returns (t : Z) :
  valid_time t → ∃ s, toISOString t = Returns s.
Proof.
  unfold valid_time, toISOString. intros Ht.
  destruct (Z.ltb_spec t (-8640000000000000)); [lia|].
  destruct (Z.ltb_spec 8640000000000000 t); [lia|]. cbn [orb].
  destruct (civil_from_days (t / msPerDay)) as [[y m] d]. eauto.
Qed.

Lemma length_positive {A : Type} (l : list A) :
  (Z.of_nat (length l) >? 0) = negb (bool_decide (l = [])).
Proof. by destruct l. Qed.

(** A request whose validation reports errors is answered 400 and leaves
    the array alone, for [POST] and [PUT] alike. *)
Lemma post_videos_invalid now_id now_createdAt now_publicationDate req videos
    validationErrors :
  validateVideoInput req = Returns validationErrors →
  validationErrors ≠ [] →
  post_videos now_id now_createdAt now_publicationDate req videos =
    (Returns (res_status_json 400 (errorsMessages validationErrors)), videos).
Proof.
  intros Hvalidation Herrors. unfold post_videos.
  rewrite Hvalidation, length_positive.
  by rewrite bool_decide_eq_false_2.
Qed.

Lemma put_videos_id_invalid req videos validationErrors :
  validateVideoInput req = Returns validationErrors →
  validationErrors ≠ [] →
  put_videos_id req videos =
    (Returns (res_status_json 400 (errorsMessages validationErrors)), videos).
Proof.
  intros Hvalidation Herrors. unfold put_videos_id.
  rewrite Hvalidation, length_positive.
  by rewrite bool_decide_eq_false_2.
Qed.

(** An exception of the validator escapes the handler before the array is
    touched. *)
Lemma post_videos_throws now_id now_createdAt now_publicationDate req videos e :
  validateVideoInput req = Throws e →
  post_videos now_id now_createdAt now_publicationDate req videos =
    (Throws e, videos).
Proof. intros Hvalidation. unfold post_videos. by rewrite Hvalidation. Qed.

(** A valid payload is stored, the new entity last. *)
Lemma post_videos_valid now_id now_createdAt now_publicationDate req videos :
  validateVideoInput req = Returns [] →
  valid_time now_createdAt →
  valid_time (now_publicationDate + 86400000) →
  ∃ createdAt publicationDate,
    toISOString now_createdAt = Returns createdAt ∧
    toISOString (now_publicationDate + 86400000) = Returns publicationDate ∧
    let newVideo : object :=
      list_to_map
        [("id", VNum now_id);
         ("title", get req.(body) "title");
         ("author", get req.(body) "author");
         ("canBeDownloaded",
          js_or (get req.(body) "canBeDownloaded") (VBool false));
         ("minAgeRestriction",
          js_or (get req.(body) "minAgeRestriction") VNull);
         ("createdAt", VStr createdAt);
         ("publicationDate", VStr publicationDate);
         ("availableResolutions",
          js_or (get req.(body) "availableResolutions") (VArr []))] in
    post_videos now_id now_createdAt now_publicationDate req videos =
      (Returns (res_status_json 201 (VObj newVideo)), videos ++ [newVideo]).
Proof.
  intros Hvalidation Hcreated Hpublication.
  destruct (toISOString_returns _ Hcreated) as [createdAt HcreatedAt].
  destruct (toISOString_returns _ Hpublication)
    as [publicationDate HpublicationDate].
  exists createdAt, publicationDate. split; [done|]. split; [done|].
  unfold post_videos.
  by rewrite Hvalidation, HcreatedAt, HpublicationDate.
Qed.

(** [POST] either leaves the array as it is or appends one entity whose id
    is the first clock reading. *)
Lemma post_videos_store now_id now_createdAt now_publicationDate req videos :
  (post_videos now_id now_createdAt now_publicationDate req videos).2 = videos
  ∨ ∃ newVideo,
      post_videos now_id now_createdAt now_publicationDate req videos =
        (Returns (res_status_json 201 (VObj newVideo)), videos ++ [newVideo])
      ∧ get newVideo "id" = VNum now_id.
Proof.
  unfold post_videos.
  destruct (validateVideoInput req) as [errors|e]; [|by left].
  destruct (_ >? 0); [by left|].
  destruct (toISOString now_createdAt) as [createdAt|]; [|by left].
  destruct (toISOString _) as [publicationDate|]; [|by left].
  right. eexists. split; [reflexivity|]. reflexivity.
Qed.

Lemma put_videos_id_cases req videos :
  validateVideoInput req = Returns [] →
  (Forall (λ video, has_id req.(params_id) video = false) videos ∧
   put_videos_id req videos =
     (Returns (res_status_json 404
        (VObj (list_to_map
           [("errorsMessages",
             VArr [VObj (list_to_map [("message", VStr "Video not found");
                                      ("field", VStr "id")])])]))),
      videos))
  ∨ (∃ (k : nat) (video : object),
       videos !! k = Some video ∧ has_id req.(params_id) video = true ∧
       Forall (λ video, has_id req.(params_id) video = false) (take k videos) ∧
       put_videos_id req videos =
         (Returns (res_status_send 204),
          <[k := req.(body) ∪ video]> videos)).
Proof.
  intros Hvalidation. unfold put_videos_id. rewrite Hvalidation. simpl.
  destruct (findIndex_cases (has_id req.(params_id)) videos)
    as [[-> Hall]|(k & video & -> & Hk & Hvideo & Hbefore)].
  - left. by split.
  - right. exists k, video. repeat split; [done..|].
    destruct (Z.eqb_spec (Z.of_nat k) (-1)); [lia|]. simpl.
    rewrite Nat2Z.id, Hk, (splice_one k video) by done.
    rewrite insert_take_drop by (by eapply lookup_lt_Some). done.
Qed.

Lemma delete_videos_id_cases req videos :
  (Forall (λ video, has_id req.(params_id) video = false) videos ∧
   delete_videos_id req videos = (Returns (res_send (VNum 404)), videos))
  ∨ (∃ (k : nat) (video : object),
       videos !! k = Some video ∧ has_id req.(params_id) video = true ∧
       Forall (λ video, has_id req.(params_id) video = false) (take k videos) ∧
       delete_videos_id req videos =
         (Returns (res_send (VNum 204)), delete k videos)).
Proof.
  unfold delete_videos_id.
  destruct (findIndex_cases (has_id req.(params_id)) videos)
    as [[-> Hall]|(k & video & -> & Hk & Hvideo & Hbefore)].
  - left. by split.
  - right. exists k, video. repeat split; [done..|].
    destruct (Z.eqb_spec (Z.of_nat k) (-1)); [lia|]. simpl.
    by rewrite (splice_one k video), delete_take_drop.
Qed.

(** ** Dates: [Date.parse] reads back what [toISOString] writes *)

Lemma civil_from_days_inverse (z y m d : Z) :
  civil_from_days z = (y, m, d) →
  1 ≤ m ≤ 12 ∧ 1 ≤ d ≤ 31 ∧ days_from_civil y m d = z.
Proof.
  unfold civil_from_days, days_from_civil.
  set (z' := z + 719468).
  set (era := z' / 146097). set (doe := z' mod 146097).
  set (yoe := (doe - doe / 1460 + doe / 36524 - doe / 146096) / 365).
  set (doy := doe - (365 * yoe + yoe / 4 - yoe / 100)).
  set (mp := (5 * doy + 2) / 153).
  assert (0 ≤ doe < 146097) as Hdoe by (apply Z.mod_pos_bound; lia).
  assert (0 ≤ yoe ≤ 399 ∧ 0 ≤ doy ≤ 365) as [Hyoe Hdoy].
  { subst yoe doy. revert Hdoe. generalize doe. clear. intros doe Hdoe.
    Z.div_mod_to_equations. lia. }
  assert (0 ≤ mp ≤ 11 ∧ 1 ≤ doy - (153 * mp + 2) / 5 + 1 ≤ 31) as [Hmp Hd].
  { subst mp. revert Hdoy. generalize doy. clear. intros doy Hdoy.
    Z.div_mod_to_equations. lia. }
  assert (z' = 146097 * era + doe) as Hz by (apply Z.div_mod; lia).
  intros [= <- <- <-].
  split; [destruct (Z.ltb_spec mp 10); lia|]. split; [done|].
  set (m := if mp <? 10 then mp + 3 else mp - 9).
  assert ((if m >? 2 then m - 3 else m + 9) = mp) as ->.
  { subst m. destruct (Z.ltb_spec mp 10).
    - destruct (Z.gtb_spec (mp + 3) 2); lia.
    - destruct (Z.gtb_spec (mp - 9) 2); lia. }
  assert ((if m <=? 2
           then yoe + era * 400 + (if m <=? 2 then 1 else 0) - 1
           else yoe + era * 400 + (if m <=? 2 then 1 else 0))
          = yoe + era * 400) as ->.
  { destruct (m <=? 2); lia. }
  rewrite Z.div_add, Z.mod_add by lia.
  rewrite Z.div_small, Z.mod_small by lia.
  subst doy. lia.
Qed.

(** The year of a valid time value has at most six digits. *)
Lemma civil_from_days_year (t y m d : Z) :
  valid_time t → civil_from_days (t / msPerDay) = (y, m, d) →
  -999999 ≤ y ≤ 999999.
Proof.
  unfold valid_time, civil_from_days, msPerDay.
  set (z' := t / 86400000 + 719468).
  set (doe := z' mod 146097).
  set (yoe := (doe - doe / 1460 + doe / 36524 - doe / 146096) / 365).
  intros Ht.
  assert (0 ≤ doe < 146097) as Hdoe by (apply Z.mod_pos_bound; lia).
  assert (0 ≤ yoe ≤ 399) as Hyoe.
  { subst yoe. revert Hdoe. generalize doe. clear. intros doe Hdoe.
    Z.div_mod_to_equations. lia. }
  assert (-690 ≤ z' / 146097 ≤ 690).
  { subst z'. Z.div_mod_to_equations. lia. }
  intros [= <- _ _]. destruct (_ <=? 2); lia.
Qed.

Lemma digit_of_char (k : Z) :
  0 ≤ k < 10 → digit (ascii_of_nat (48 + Z.to_nat k)) = Some k.
Proof.
  intros Hk.
  assert (k = 0 ∨ k = 1 ∨ k = 2 ∨ k = 3 ∨ k = 4 ∨ k = 5 ∨ k = 6 ∨ k = 7
          ∨ k = 8 ∨ k = 9) as Hcases by lia.
  repeat destruct Hcases as [->|Hcases]; try reflexivity.
  by subst.
Qed.

(** Reading [S width] digits is reading [width] digits and one more. *)
Lemma digits_S (width : nat) (acc : Z) (s : string) :
  digits (S width) acc s =
    match digits width acc s with
    | Some (a, String c rest) =>
        match digit c with
        | Some d => Some (10 * a + d, rest)
        | None => None
        end
    | _ => None
    end.
Proof.
  revert acc s. induction width as [|width IH]; intros acc s.
  { simpl. destruct s as [|c rest]; [done|]. by destruct (digit c). }
  destruct s as [|c rest]; [done|].
  change (digits (S (S width)) acc (String c rest))
    with (d ← digit c; digits (S width) (10 * acc + d) rest).
  change (digits (S width) acc (String c rest))
    with (d ← digit c; digits width (10 * acc + d) rest).
  destruct (digit c) as [d|]; [|done]. simpl. apply IH.
Qed.

Lemma append_nil (t : string) : "" +:+ t = t.
Proof. reflexivity. Qed.

Lemma append_cons (c : ascii) (s t : string) :
  String c s +:+ t = String c (s +:+ t).
Proof. reflexivity. Qed.

Lemma append_assoc (s t u : string) : (s +:+ t) +:+ u = s +:+ t +:+ u.
Proof.
  induction s as [|c s IH]; [done|]. by rewrite !append_cons, IH.
Qed.

Lemma digits_pad (width : nat) (acc n : Z) (rest : string) :
  0 ≤ n < 10 ^ Z.of_nat width →
  digits width acc (pad width n +:+ rest)
  = Some (acc * 10 ^ Z.of_nat width + n, rest).
Proof.
  revert n rest. induction width as [|width IH]; intros n rest Hn.
  { simpl in *. f_equal. f_equal. lia. }
  rewrite Nat2Z.inj_succ, Z.pow_succ_r in * by lia.
  rewrite digits_S. cbn [pad].
  rewrite append_assoc, append_cons, append_nil.
  rewrite IH by (Z.div_mod_to_equations; lia).
  rewrite digit_of_char by (apply Z.mod_pos_bound; lia).
  f_equal. f_equal. Z.div_mod_to_equations. lia.
Qed.

Lemma year_field_year_string (y : Z) (rest : string) :
  -999999 ≤ y ≤ 999999 →
  year_field (year_string y +:+ rest) = Some (y, rest).
Proof.
  intros Hy. unfold year_string.
  destruct (Z.leb_spec 0 y); [destruct (Z.leb_spec y 9999)|]; cbn [andb].
  - pose proof (digits_pad 4 0 y rest ltac:(lia)) as Hdigits.
    rewrite Z.mul_0_l, Z.add_0_l in Hdigits.
    destruct (pad 4 y +:+ rest) as [|c r]; [done|].
    unfold year_field.
    destruct (Ascii.eqb_spec c "+") as [->|_]; [done|].
    by destruct (Ascii.eqb_spec c "-") as [->|_].
  - destruct (Z.ltb_spec y 0); [lia|].
    rewrite append_assoc, append_cons, append_nil. unfold year_field.
    rewrite Ascii.eqb_refl, digits_pad by lia. f_equal. f_equal. lia.
  - destruct (Z.ltb_spec y 0); [|lia].
    rewrite append_assoc, append_cons, append_nil. unfold year_field.
    change (Ascii.eqb "-" "+") with false. cbn match.
    rewrite Ascii.eqb_refl, digits_pad by lia. f_equal. f_equal. lia.
Qed.

Lemma fields_cons (separator : ascii) (width : nat) (n : Z) layout rest :
  0 ≤ n < 10 ^ Z.of_nat width →
  fields ((separator, width) :: layout)
    (String separator "" +:+ pad width n +:+ rest)
  = match fields layout rest with
    | Some (ns, r) => Some (n :: ns, r)
    | None => None
    end.
Proof.
  intros Hn. rewrite append_cons, append_nil. cbn [fields literal].
  rewrite Ascii.eqb_refl, digits_pad by done.
  by rewrite Z.mul_0_l, Z.add_0_l.
Qed.

(** [Date.parse(d.toISOString())] is the time value of [d]. *)
Lemma Date_parse_toISOString (t : Z) (s : string) :
  toISOString t = Returns s → Date_parse s = Some t.
Proof.
  intros Hs. pose proof Hs as Hiso. unfold toISOString in Hs.
  destruct (Z.ltb_spec t (-8640000000000000)); [done|].
  destruct (Z.ltb_spec 8640000000000000 t); [done|]. cbn [orb] in Hs.
  destruct (civil_from_days (t / msPerDay)) as [[y m] d] eqn:Hcivil.
  pose proof (civil_from_days_year t y m d ltac:(unfold valid_time; lia) Hcivil).
  apply civil_from_days_inverse in Hcivil as (Hm & Hd & Hdays).
  apply (f_equal (λ o, match o with Returns x => x | Throws _ => "" end))
    in Hs.
  cbn beta iota in Hs. subst s. unfold Date_parse.
  assert (0 ≤ t `mod` msPerDay < 86400000) as Hms
    by (apply Z.mod_pos_bound; done).
  rewrite year_field_year_string by done.
  rewrite !fields_cons; cbn [fields];
    [|unfold msPerDay in *; simpl; Z.div_mod_to_equations; lia..].
  match goal with
  | |- context [toISOString ?e] => assert (e = t) as ->
  end.
  { rewrite Hdays. unfold msPerDay in *. Z.div_mod_to_equations. lia. }
  rewrite Hiso. by rewrite !String.eqb_refl.
Qed.

(** ** Create *)

(** **** C4, as the specification states it, fails: [createdAt] and
    [publicationDate] come from two readings of the clock, and when the
    clock ticks between them the two dates are more than 24 hours apart. *)
Lemma post_videos_publication_over_24h :
  let req := {| params_id := None;
                body := list_to_map
                  [("title", VStr "A"); ("author", VStr "B");
                   ("availableResolutions", VArr [VStr "720p"])] |} in
  validateVideoInput req = Returns [] ∧
  get req.(body) "canBeDownloaded" = VUndefined ∧
  get req.(body) "minAgeRestriction" = VUndefined ∧
  ∃ newVideo,
    post_videos 1700000000000 1700000000000 1700000000001 req [] =
      (Returns (res_status_json 201 (VObj newVideo)), [newVideo]) ∧
    get newVideo "createdAt" = VStr "2023-11-14T22:13:20.000Z" ∧
    get newVideo "publicationDate" = VStr "2023-11-15T22:13:20.001Z" ∧
    date_of newVideo "createdAt" = Some 1700000000000 ∧
    date_of newVideo "publicationDate" = Some (1700000000000 + 86400000 + 1) ∧
    date_of newVideo "publicationDate" ≠
      (λ t, t + 86400000) <$> date_of newVideo "createdAt".
Proof.
  repeat (split; [vm_compute; reflexivity|]).
  eexists. split; [reflexivity|].
  repeat (split; [vm_compute; reflexivity|]).
  vm_compute. discriminate.
Qed.

(** **** C4, amended.  A Create with a valid payload that leaves out
    [canBeDownloaded] and [minAgeRestriction] returns and stores an entity
    with [canBeDownloaded = false] and [minAgeRestriction = null], whose
    [createdAt] is the clock reading of [new Date()] and whose
    [publicationDate] is the following clock reading, of [Date.now()], plus
    24 hours: the two are exactly 24 hours apart when both readings fall in
    the same millisecond, and further apart by the time between the readings
    otherwise.  (The readings are time values a [Date] can hold, as those of
    a system clock are.) *)
Theorem post_videos_defaults
    (now_id now_createdAt now_publicationDate : Z) (req : Request)
    (videos : list object) :
  validateVideoInput req = Returns [] →
  absent (get req.(body) "canBeDownloaded") = true →
  absent (get req.(body) "minAgeRestriction") = true →
  valid_time now_createdAt →
  valid_time (now_publicationDate + 86400000) →
  ∃ newVideo,
    post_videos now_id now_createdAt now_publicationDate req videos =
      (Returns (res_status_json 201 (VObj newVideo)), videos ++ [newVideo]) ∧
    get newVideo "canBeDownloaded" = VBool false ∧
    get newVideo "minAgeRestriction" = VNull ∧
    date_of newVideo "createdAt" = Some now_createdAt ∧
    date_of newVideo "publicationDate" =
      Some (now_createdAt + 86400000 + (now_publicationDate - now_createdAt)).
Proof.
  intros Hvalidation Hdownload Hage Hcreated Hpublication.
  destruct (post_videos_valid now_id _ _ req videos Hvalidation Hcreated
              Hpublication)
    as (createdAt & publicationDate & HcreatedAt & HpublicationDate & Hpost).
  eexists. split; [exact Hpost|].
  apply Date_parse_toISOString in HcreatedAt, HpublicationDate.
  repeat split.
  - change (js_or (get req.(body) "canBeDownloaded") (VBool false)
            = VBool false).
    by destruct (get req.(body) "canBeDownloaded").
  - change (js_or (get req.(body) "minAgeRestriction") VNull = VNull).
    by destruct (get req.(body) "minAgeRestriction").
  - exact HcreatedAt.
  - change (Date_parse publicationDate = Some
              (now_createdAt + 86400000 + (now_publicationDate - now_createdAt))).
    rewrite HpublicationDate. f_equal. lia.
Qed.

Lemma post_videos_defaults_witness :
  let req := {| params_id := None;
                body := list_to_map
                  [("title", VStr "A"); ("author", VStr "B");
                   ("availableResolutions", VArr [VStr "720p"])] |} in
  validateVideoInput req = Returns [] ∧
  absent (get req.(body) "canBeDownloaded") = true ∧
  absent (get req.(body) "minAgeRestriction") = true ∧
  valid_time 1700000000000 ∧
  valid_time (1700000000000 + 86400000) ∧
  ∃ newVideo,
    post_videos 1700000000000 1700000000000 1700000000000 req [] =
      (Returns (res_status_json 201 (VObj newVideo)), [] ++ [newVideo]) ∧
    get newVideo "canBeDownloaded" = VBool false ∧
    get newVideo "minAgeRestriction" = VNull ∧
    date_of newVideo "createdAt" = Some 1700000000000 ∧
    date_of newVideo "publicationDate" =
      Some (1700000000000 + 86400000 + (1700000000000 - 1700000000000)).
Proof.
  assert (valid_time 1700000000000) as H1 by (unfold valid_time; lia).
  assert (valid_time (1700000000000 + 86400000)) as H2
    by (unfold valid_time; lia).
  repeat (split; [first [exact H1 | exact H2 | vm_compute; reflexivity]|]).
  apply post_videos_defaults;
    first [exact H1 | exact H2 | vm_compute; reflexivity].
Defined.

(** **** C10.  A Create with a valid payload whose [minAgeRestriction] is 0,
    or any other falsy value (the empty string, [false], [null]), stores
    [minAgeRestriction = null].  (The clock readings are time values a
    [Date] can hold, as those of a system clock are.) *)
Theorem post_videos_falsy_minAgeRestriction
    (now_id now_createdAt now_publicationDate : Z) (req : Request)
    (videos : list object) :
  validateVideoInput req = Returns [] →
  truthy (get req.(body) "minAgeRestriction") = false →
  valid_time now_createdAt →
  valid_time (now_publicationDate + 86400000) →
  ∃ newVideo,
    post_videos now_id now_createdAt now_publicationDate req videos =
      (Returns (res_status_json 201 (VObj newVideo)), videos ++ [newVideo]) ∧
    get newVideo "minAgeRestriction" = VNull.
Proof.
  intros Hvalidation Hage Hcreated Hpublication.
  destruct (post_videos_valid now_id _ _ req videos Hvalidation Hcreated
              Hpublication)
    as (createdAt & publicationDate & _ & _ & Hpost).
  eexists. split; [exact Hpost|].
  change (js_or (get req.(body) "minAgeRestriction") VNull = VNull).
  unfold js_or. by rewrite Hage.
Qed.

Lemma post_videos_falsy_minAgeRestriction_witness :
  let req := {| params_id := None;
                body := list_to_map
                  [("title", VStr "A"); ("author", VStr "B");
                   ("minAgeRestriction", VNum 0);
                   ("availableResolutions", VArr [VStr "720p"])] |} in
  validateVideoInput req = Returns [] ∧
  truthy (get req.(body) "minAgeRestriction") = false ∧
  valid_time 1700000000000 ∧
  valid_time (1700000000000 + 86400000) ∧
  ∃ newVideo,
    post_videos 1700000000000 1700000000000 1700000000000 req [] =
      (Returns (res_status_json 201 (VObj newVideo)), [] ++ [newVideo]) ∧
    get newVideo "minAgeRestriction" = VNull.
Proof.
  assert (valid_time 1700000000000) as H1 by (unfold valid_time; lia).
  assert (valid_time (1700000000000 + 86400000)) as H2
    by (unfold valid_time; lia).
  repeat (split; [first [exact H1 | exact H2 | vm_compute; reflexivity]|]).
  apply post_videos_falsy_minAgeRestriction;
    first [exact H1 | exact H2 | vm_compute; reflexivity].
Defined.

(** What the validator returned, rule by rule. *)
Lemma validateVideoInput_inv req validationErrors :
  validateVideoInput req = Returns validationErrors →
  ∃ title author resolutions,
    validateField (get req.(body) "title")
      {| fieldName := "title"; isRequired := Some true; isString := Some true;
         minLength := Some 1; maxLength := Some 40;
         isArray := None; enumValues := None |} = Returns title
    ∧ validateField (get req.(body) "author")
      {| fieldName := "author"; isRequired := Some true; isString := Some true;
         minLength := Some 1; maxLength := Some 20;
         isArray := None; enumValues := None |} = Returns author
    ∧ validateField (get req.(body) "availableResolutions")
      {| fieldName := "availableResolutions"; isArray := Some true;
         isRequired := Some true; enumValues := Some VideoQuality;
         isString := None; minLength := None; maxLength := None |}
      = Returns resolutions
    ∧ validationErrors = omap id [title; author; resolutions].
Proof.
  intros Hvalidation.
  destruct (validateField (get req.(body) "availableResolutions")
    {| fieldName := "availableResolutions"; isArray := Some true;
       isRequired := Some true; enumValues := Some VideoQuality;
       isString := None; minLength := None; maxLength := None |})
    as [resolutions|e] eqn:Hresolutions.
  - destruct (validateVideoInput_returns req resolutions Hresolutions)
      as (title & author & Htitle & Hauthor & Hall).
    exists title, author, resolutions. repeat split; [done..|]. congruence.
  - exfalso. revert Hvalidation.
    unfold validateVideoInput. rewrite validateRules_mapM.
    unfold validationRules, mapM. cbn [fieldName].
    rewrite Hresolutions.
    destruct (validateField (get req.(body) "title") _); [|done].
    by destruct (validateField (get req.(body) "author") _).
Qed.

(** **** C5, as the specification states it, fails: a Create without
    [availableResolutions] is refused and stores nothing. *)
Lemma post_videos_without_resolutions_refused :
  let req := {| params_id := None;
                body := list_to_map
                  [("title", VStr "A"); ("author", VStr "B")] |} in
  get req.(body) "availableResolutions" = VUndefined ∧
  post_videos 1700000000000 1700000000000 1700000000000 req [] =
    (Returns (res_status_json 400
       (errorsMessages ["availableResolutions is required."])), []).
Proof. split; vm_compute; reflexivity. Qed.

(** **** C5, amended.  A Create whose payload has no [availableResolutions]
    (the property is missing or [null]) is answered 400, the last message
    being "availableResolutions is required.", and leaves the store
    unchanged: the rule of the validator makes the field required, so the
    default [[]] of the handler is never taken. *)
Theorem post_videos_requires_resolutions
    (now_id now_createdAt now_publicationDate : Z) (req : Request)
    (videos : list object) :
  absent (get req.(body) "availableResolutions") = true →
  ∃ validationErrors,
    validateVideoInput req =
      Returns (validationErrors ++ ["availableResolutions is required."]) ∧
    post_videos now_id now_createdAt now_publicationDate req videos =
      (Returns (res_status_json 400
         (errorsMessages
            (validationErrors ++ ["availableResolutions is required."]))),
       videos).
Proof.
  intros Habsent.
  destruct (validateVideoInput_returns req
              (Some "availableResolutions is required."))
    as (title & author & _ & _ & Hvalidation).
  { unfold validateField. cbn [isRequired flag default fieldName].
    by rewrite Habsent. }
  exists (omap id [title; author]).
  assert (omap id [title; author; Some "availableResolutions is required."]
          = omap id [title; author] ++ ["availableResolutions is required."])
    as Heq by (by destruct title, author).
  rewrite Heq in Hvalidation. split; [done|].
  apply post_videos_invalid; [done|]. by destruct (omap id [title; author]).
Qed.

Lemma post_videos_requires_resolutions_witness :
  let req := {| params_id := None;
                body := list_to_map
                  [("title", VStr ""); ("author", VStr "B");
                   ("availableResolutions", VNull)] |} in
  absent (get req.(body) "availableResolutions") = true ∧
  ∃ validationErrors,
    validateVideoInput req =
      Returns (validationErrors ++ ["availableResolutions is required."]) ∧
    post_videos 1 2 3 req [] =
      (Returns (res_status_json 400
         (errorsMessages
            (validationErrors ++ ["availableResolutions is required."]))),
       []).
Proof.
  split; [reflexivity|].
  apply post_videos_requires_resolutions. reflexivity.
Defined.

(** When a Create succeeds, the stored [availableResolutions] is the array
    of the payload. *)
Lemma post_videos_resolutions_of_payload
    now_id now_createdAt now_publicationDate req videos newVideo videos' :
  post_videos now_id now_createdAt now_publicationDate req videos =
    (Returns (res_status_json 201 (VObj newVideo)), videos') →
  ∃ items, get req.(body) "availableResolutions" = VArr items ∧
           get newVideo "availableResolutions" = VArr items.
Proof.
  unfold post_videos.
  destruct (validateVideoInput req) as [errors|] eqn:Hvalidation;
    [|done].
  destruct errors as [|error errors]; [|done]. cbn [length Z.of_nat Z.gtb].
  cbn match.
  destruct (toISOString now_createdAt); [|done].
  destruct (toISOString _); [|done]. simpl. intros [= <- _].
  apply validateVideoInput_inv in Hvalidation
    as (title & author & [resolutions|] & _ & _ & Hresolutions & Herrors);
    [by destruct title, author|].
  revert Hresolutions. unfold validateField.
  cbn [isRequired isString isArray flag default fieldName].
  destruct (get req.(body) "availableResolutions") as [| | | | |items|] eqn:Hget;
    try done.
  intros _. by exists items.
Qed.

(** ** Update *)

(** **** C6.  An Update whose payload the validator reports errors on is
    answered 400 and leaves the store unchanged, whatever the id is and
    whether or not an entity has it; an Update whose payload is valid and
    whose id no stored entity has is answered 404 and leaves the store
    unchanged. *)
Theorem put_videos_id_errors (req : Request) (videos : list object)
    (validationErrors : list string) :
  validateVideoInput req = Returns validationErrors →
  (validationErrors ≠ [] →
   put_videos_id req videos =
     (Returns (res_status_json 400 (errorsMessages validationErrors)),
      videos))
  ∧ (validationErrors = [] →
     Forall (λ video, has_id req.(params_id) video = false) videos →
     put_videos_id req videos =
       (Returns (res_status_json 404
          (VObj (list_to_map
             [("errorsMessages",
               VArr [VObj (list_to_map [("message", VStr "Video not found");
                                        ("field", VStr "id")])])]))),
        videos)).
Proof.
  intros Hvalidation. split.
  - by apply put_videos_id_invalid.
  - intros -> Hnone.
    destruct (put_videos_id_cases req videos Hvalidation)
      as [[_ Hput]|(k & video & Hk & Hvideo & _)]; [done|].
    rewrite Forall_forall in Hnone.
    apply list_elem_of_lookup_2, Hnone in Hk. congruence.
Qed.

Lemma put_videos_id_errors_witness :
  let stored : object :=
    list_to_map [("id", VNum 1); ("title", VStr "A"); ("author", VStr "B")] in
  let invalid := {| params_id := Some 1;
                    body := list_to_map [("title", VStr "A")] |} in
  let unknown := {| params_id := Some 2;
                    body := list_to_map
                      [("title", VStr "A"); ("author", VStr "B");
                       ("availableResolutions", VArr [])] |} in
  (validateVideoInput invalid =
     Returns ["author is required."; "availableResolutions is required."] ∧
   put_videos_id invalid [stored] =
     (Returns (res_status_json 400
        (errorsMessages
           ["author is required."; "availableResolutions is required."])),
      [stored]))
  ∧ (validateVideoInput unknown = Returns [] ∧
     Forall (λ video, has_id unknown.(params_id) video = false) [stored] ∧
     put_videos_id unknown [stored] =
       (Returns (res_status_json 404
          (VObj (list_to_map
             [("errorsMessages",
               VArr [VObj (list_to_map [("message", VStr "Video not found");
                                        ("field", VStr "id")])])]))),
        [stored])).
Proof.
  intros stored invalid unknown.
  assert (validateVideoInput invalid =
            Returns ["author is required."; "availableResolutions is required."])
    as Hinvalid by (vm_compute; reflexivity).
  assert (validateVideoInput unknown = Returns []) as Hunknown
    by (vm_compute; reflexivity).
  assert (Forall (λ video, has_id unknown.(params_id) video = false) [stored])
    as Hnone by (constructor; [vm_compute; reflexivity|constructor]).
  split; [split; [exact Hinvalid|]|split; [exact Hunknown|split; [exact Hnone|]]].
  - apply (proj1 (put_videos_id_errors invalid [stored] _ Hinvalid)).
    discriminate.
  - exact (proj2 (put_videos_id_errors unknown [stored] _ Hunknown)
             eq_refl Hnone).
Defined.

(** ** Refused payloads *)

Lemma checkEnum_offending fieldName enumValues items item :
  item ∈ items → includes enumValues item = false →
  checkEnum fieldName enumValues items ≠ Returns None.
Proof.
  intros Hin Hitem. induction Hin as [item rest|item other rest Hin IH]; simpl.
  - rewrite Hitem. simpl. by destruct (toString item).
  - destruct (includes enumValues other); simpl; [by apply IH|].
    by destruct (toString other).
Qed.

(** On such a payload the validator does not return the empty list... *)
Lemma validateVideoInput_out_of_range req :
  out_of_range req.(body) → validateVideoInput req ≠ Returns [].
Proof.
  intros Hbody Hvalidation.
  apply validateVideoInput_inv in Hvalidation
    as (title & author & resolutions & Htitle & Hauthor & Hresolutions & Hnil).
  assert (title = None ∧ author = None ∧ resolutions = None) as (-> & -> & ->)
    by (by destruct title, author, resolutions).
  destruct Hbody
    as [(s & Hs & Hlen)|[(s & Hs & Hlen)|(items & item & Hs & Hin & Hitem)]].
  - revert Htitle. rewrite Hs. unfold validateField, check.
    cbn [isRequired isString minLength maxLength flag default fieldName absent
         andb].
    destruct (Z.ltb_spec (Z.of_nat (String.length s)) 1); [done|].
    destruct (Z.gtb_spec (Z.of_nat (String.length s)) 40); [done|]. lia.
  - revert Hauthor. rewrite Hs. unfold validateField, check.
    cbn [isRequired isString minLength maxLength flag default fieldName absent
         andb].
    destruct (Z.ltb_spec (Z.of_nat (String.length s)) 1); [done|].
    destruct (Z.gtb_spec (Z.of_nat (String.length s)) 20); [done|]. lia.
  - revert Hresolutions. rewrite Hs. unfold validateField.
    cbn [isRequired isString isArray enumValues flag default fieldName absent
         andb Array_isArray negb elements].
    by apply checkEnum_offending with item.
Qed.

(** ... so that the Create is answered 400 whenever the validator returns,
    and the store is unchanged in any case. *)
Lemma post_videos_out_of_range
    now_id now_createdAt now_publicationDate req videos :
  out_of_range req.(body) →
  (post_videos now_id now_createdAt now_publicationDate req videos).2 = videos
  ∧ ∀ validationErrors,
      validateVideoInput req = Returns validationErrors →
      validationErrors ≠ [] ∧
      post_videos now_id now_createdAt now_publicationDate req videos =
        (Returns (res_status_json 400 (errorsMessages validationErrors)),
         videos).
Proof.
  intros Hbody. apply validateVideoInput_out_of_range in Hbody.
  assert (∀ validationErrors,
      validateVideoInput req = Returns validationErrors →
      validationErrors ≠ [] ∧
      post_videos now_id now_createdAt now_publicationDate req videos =
        (Returns (res_status_json 400 (errorsMessages validationErrors)),
         videos)) as Hreturns.
  { intros errors Hvalidation.
    assert (errors ≠ []) by congruence.
    split; [done|]. by apply post_videos_invalid. }
  split; [|done].
  destruct (validateVideoInput req) as [errors|e] eqn:Hvalidation.
  - by destruct (Hreturns errors eq_refl) as [_ ->].
  - by rewrite (post_videos_throws _ _ _ _ _ e).
Qed.

(** **** C7 does not hold of the code.  The message for an element outside
    the enum is built with [`${item}`]; when the element is an object with
    a [toString] property of its own the conversion throws, the exception
    escapes [validateField], [validateVideoInput] and the handler, and the
    Create is not answered 400.  The store is unchanged. *)
Theorem post_videos_unprintable_resolution
    (now_id now_createdAt now_publicationDate : Z) (videos : list object) :
  let req := {| params_id := None;
                body := list_to_map
                  [("title", VStr "A"); ("author", VStr "B");
                   ("availableResolutions",
                    VArr [VObj (list_to_map [("toString", VNum 1)])])] |} in
  out_of_range req.(body) ∧
  post_videos now_id now_createdAt now_publicationDate req videos =
    (Throws TypeError, videos).
Proof.
  split.
  - right. right. eexists _, _. split; [reflexivity|].
    split; [apply list_elem_of_here|reflexivity].
  - apply post_videos_throws. vm_compute. reflexivity.
Qed.

(** ** The store along a sequence of requests *)

Lemma run_cons op ops videos :
  run (op :: ops) videos = run ops (perform op videos).2.
Proof. reflexivity. Qed.

Lemma run_app ops1 ops2 videos :
  run (ops1 ++ ops2) videos = run ops2 (run ops1 videos).
Proof. apply foldl_app. Qed.

(** A Create answered 201 has appended the entity it returns. *)
Lemma post_videos_created
    now_id now_createdAt now_publicationDate req videos response videos' :
  post_videos now_id now_createdAt now_publicationDate req videos =
    (Returns (res_status_json 201 response), videos') →
  ∃ newVideo, response = VObj newVideo ∧ videos' = videos ++ [newVideo].
Proof.
  unfold post_videos.
  destruct (validateVideoInput req) as [errors|]; [|done].
  destruct (_ >? 0); [done|].
  destruct (toISOString now_createdAt); [|done].
  destruct (toISOString _); [|done]. simpl. intros [= <- <-]. eauto.
Qed.

(** After Creates that all succeeded, the store holds the entities they
    returned, in the order of the requests, after what it held before. *)
Lemma run_creates (creates : list Operation) (videos : list object)
    (newVideos : list object) :
  Forall is_Create creates →
  answers creates videos = created <$> newVideos →
  run creates videos = videos ++ newVideos.
Proof.
  revert videos newVideos.
  induction creates as [|op creates IH]; intros videos newVideos Hcreates.
  { destruct newVideos; [|done]. by rewrite app_nil_r. }
  apply Forall_cons in Hcreates as [Hop Hcreates].
  destruct op as [| |now_id now_createdAt now_publicationDate req| |]; try done.
  destruct newVideos as [|newVideo newVideos]; [done|].
  rewrite run_cons. cbn [answers perform fmap list_fmap].
  destruct (post_videos _ _ _ req videos) as [answer videos'] eqn:Hpost.
  cbn [fst snd]. unfold created at 1. intros [= -> Hanswers].
  apply post_videos_created in Hpost as (? & [= <-] & ->).
  rewrite (IH _ newVideos) by done. by rewrite <- app_assoc.
Qed.

(** **** C9.  After N Creates that succeeded on an empty store, the store
    holds the N entities they returned, in the order of the requests; a
    Delete that then succeeds removes exactly one entity, the first that has
    the id, and List returns the N - 1 others in their order. *)
Theorem list_after_creates_and_delete
    (creates : list Operation) (newVideos : list object) (req : Request) :
  Forall is_Create creates →
  answers creates [] = created <$> newVideos →
  (perform (Delete req) (run creates [])).1 = Returns (res_send (VNum 204)) →
  length newVideos = length creates ∧
  run creates [] = newVideos ∧
  ∃ (k : nat) (video : object),
    newVideos !! k = Some video ∧
    has_id req.(params_id) video = true ∧
    run (creates ++ [Delete req]) [] = delete k newVideos ∧
    (perform List (run (creates ++ [Delete req]) [])).1 =
      Returns (res_send (VArr (VObj <$> delete k newVideos))) ∧
    length (delete k newVideos) = (length creates - 1)%nat ∧
    delete k newVideos `sublist_of` newVideos.
Proof.
  intros Hcreates Hanswers.
  assert (length newVideos = length creates) as Hlength.
  { apply (f_equal length) in Hanswers. rewrite length_fmap in Hanswers.
    rewrite <- Hanswers. clear. generalize (@nil object).
    induction creates as [|op creates IH]; intros videos; simpl; [done|].
    by rewrite IH. }
  rewrite run_app, (run_creates creates [] newVideos) by done.
  cbn [app perform run foldl].
  destruct (delete_videos_id_cases req newVideos)
    as [[_ ->]|(k & video & Hk & Hvideo & _ & ->)]; [done|].
  intros _. split; [done|]. split; [done|].
  exists k, video. cbn [snd fst get_videos].
  repeat split; [done..| |apply sublist_delete].
  rewrite length_delete by eauto. lia.
Qed.

Lemma list_after_creates_and_delete_witness :
  let payload (title : string) : object :=
    list_to_map [("title", VStr title); ("author", VStr "B");
                 ("availableResolutions", VArr [VStr "720p"])] in
  let creates :=
    [Create 1700000000001 1700000000001 1700000000001
       {| params_id := None; body := payload "first" |};
     Create 1700000000002 1700000000002 1700000000002
       {| params_id := None; body := payload "second" |};
     Create 1700000000003 1700000000003 1700000000003
       {| params_id := None; body := payload "third" |}] in
  let newVideos := run creates [] in
  let req := {| params_id := Some 1700000000002; body := ∅ |} in
  Forall is_Create creates ∧
  answers creates [] = created <$> newVideos ∧
  (perform (Delete req) (run creates [])).1 = Returns (res_send (VNum 204)) ∧
  (λ video, get video "title") <$> run (creates ++ [Delete req]) [] =
    [VStr "first"; VStr "third"] ∧
  length newVideos = length creates ∧
  run creates [] = newVideos ∧
  ∃ (k : nat) (video : object),
    newVideos !! k = Some video ∧
    has_id req.(params_id) video = true ∧
    run (creates ++ [Delete req]) [] = delete k newVideos ∧
    (perform List (run (creates ++ [Delete req]) [])).1 =
      Returns (res_send (VArr (VObj <$> delete k newVideos))) ∧
    length (delete k newVideos) = (length creates - 1)%nat ∧
    delete k newVideos `sublist_of` newVideos.
Proof.
  intros payload creates newVideos req.
  assert (Forall is_Create creates) as Hcreates
    by (repeat constructor).
  assert (answers creates [] = created <$> newVideos) as Hanswers
    by (vm_compute; reflexivity).
  assert ((perform (Delete req) (run creates [])).1
          = Returns (res_send (VNum 204))) as Hdelete
    by (vm_compute; reflexivity).
  split; [exact Hcreates|]. split; [exact Hanswers|].
  split; [exact Hdelete|]. split; [vm_compute; reflexivity|].
  exact (list_after_creates_and_delete creates newVideos req
           Hcreates Hanswers Hdelete).
Defined.

(** ** Ids *)

(** [PUT] either leaves the array as it is or replaces the first entity
    that has the id by its merge with the payload. *)
Lemma put_videos_id_store req videos :
  (put_videos_id req videos).2 = videos
  ∨ ∃ (k : nat) (video : object),
      videos !! k = Some video ∧ has_id req.(params_id) video = true ∧
      (put_videos_id req videos).2 = <[k := req.(body) ∪ video]> videos.
Proof.
  destruct (validateVideoInput req) as [[|error errors]|e]
    eqn:Hvalidation.
  - destruct (put_videos_id_cases req videos Hvalidation)
      as [[_ ->]|(k & video & Hk & Hvideo & _ & ->)]; [by left|].
    right. by exists k, video.
  - left. by rewrite (put_videos_id_invalid _ _ (error :: errors)).
  - left. unfold put_videos_id. by rewrite Hvalidation.
Qed.

Lemma ids_app videos1 videos2 :
  ids (videos1 ++ videos2) = ids videos1 ++ ids videos2.
Proof. apply fmap_app. Qed.

(** A payload without [id] leaves the id of the merged entity alone. *)
Lemma get_id_spread (payload video : object) :
  payload !! "id" = None → get (payload ∪ video) "id" = get video "id".
Proof. intros Hid. unfold get. by rewrite lookup_union_r. Qed.

Lemma ids_put_videos_id req videos :
  req.(body) !! "id" = None →
  ids (put_videos_id req videos).2 = ids videos.
Proof.
  intros Hid.
  destruct (put_videos_id_store req videos)
    as [->|(k & video & Hk & _ & ->)]; [done|].
  unfold ids. rewrite list_fmap_insert, get_id_spread by done.
  apply list_insert_id. by rewrite list_lookup_fmap, Hk.
Qed.

(** **** C2, as the specification states it, fails: an Update whose payload
    has an [id] gives that id to the stored entity. *)
Lemma put_videos_id_overwrites_id :
  let payload : object :=
    list_to_map [("title", VStr "A"); ("author", VStr "B");
                 ("availableResolutions", VArr [VStr "720p"])] in
  let create :=
    Create 1700000000001 1700000000001 1700000000001
      {| params_id := None; body := payload |} in
  let update :=
    Update {| params_id := Some 1700000000001;
              body := <["id" := VNum 7]> payload |} in
  ids (run [create] []) = [VNum 1700000000001] ∧
  (perform update (run [create] [])).1 = Returns (res_status_send 204) ∧
  ids (run [create; update] []) = [VNum 7] ∧
  ids (run [create; update] []) ≠ ids (run [create] []).
Proof.
  repeat (split; [vm_compute; reflexivity|]). vm_compute. discriminate.
Qed.

(** **** C2, amended.  The id of an entity is the clock reading the Create
    takes for it, and no request other than an Update whose payload has a
    property [id] changes the id of a stored entity: a Create keeps the
    stored entities as they are and appends at most the new one, an Update
    whose payload has no [id] keeps every id in its place, a Delete removes
    at most one entity and keeps the others as they are, and List and Get
    change nothing. *)
Theorem perform_keeps_ids (op : Operation) (videos : list object) :
  keeps_id op →
  match op with
  | Create now_id _ _ _ =>
      (perform op videos).2 = videos
      ∨ ∃ newVideo, (perform op videos).2 = videos ++ [newVideo] ∧
                    get newVideo "id" = VNum now_id
  | Update _ => ids (perform op videos).2 = ids videos
  | Delete _ =>
      (perform op videos).2 = videos
      ∨ ∃ k : nat, (perform op videos).2 = delete k videos
  | List | Get _ => (perform op videos).2 = videos
  end.
Proof.
  intros Hop.
  destruct op as [|req|now_id now_createdAt now_publicationDate req|req|req];
    cbn [perform].
  - reflexivity.
  - unfold get_videos_id. by destruct (negb _).
  - destruct (post_videos_store now_id now_createdAt now_publicationDate req
                videos) as [?|(newVideo & -> & ?)]; [by left|].
    right. by exists newVideo.
  - by apply ids_put_videos_id.
  - destruct (delete_videos_id_cases req videos)
      as [[_ ->]|(k & video & _ & _ & _ & ->)]; [by left|].
    right. by exists k.
Qed.

Lemma perform_keeps_ids_witness :
  let stored : object :=
    list_to_map [("id", VNum 1); ("title", VStr "A"); ("author", VStr "B")] in
  let update :=
    Update {| params_id := Some 1;
              body := list_to_map
                [("title", VStr "C"); ("author", VStr "D");
                 ("availableResolutions", VArr [])] |} in
  keeps_id update ∧
  (λ video, get video "title") <$> (perform update [stored]).2 = [VStr "C"] ∧
  ids (perform update [stored]).2 = ids [stored].
Proof.
  intros stored update.
  assert (keeps_id update) as Hop by reflexivity.
  split; [exact Hop|]. split; [vm_compute; reflexivity|].
  exact (perform_keeps_ids update [stored] Hop).
Defined.

(** The ids after a request are ids from before it, in their order, and
    then the clock reading of the request when it is a Create. *)
Lemma ids_perform op videos :
  keeps_id op →
  ids (perform op videos).2 `sublist_of` ids videos ++ (VNum <$> now_ids [op]).
Proof.
  intros Hop.
  destruct op as [|req|now_id now_createdAt now_publicationDate req|req|req];
    cbn [perform now_ids omap list_omap fmap list_fmap].
  - by rewrite app_nil_r.
  - rewrite app_nil_r. unfold get_videos_id. by destruct (negb _).
  - destruct (post_videos_store now_id now_createdAt now_publicationDate req
                videos) as [->|(newVideo & -> & Hid)].
    + by apply sublist_inserts_r.
    + cbn [snd]. rewrite ids_app. cbn [ids fmap list_fmap]. by rewrite Hid.
  - rewrite app_nil_r. by rewrite ids_put_videos_id.
  - rewrite app_nil_r.
    destruct (delete_videos_id_cases req videos)
      as [[_ ->]|(k & video & _ & _ & _ & ->)]; [done|].
    cbn [snd]. unfold ids. apply fmap_sublist, sublist_delete.
Qed.

Lemma now_ids_cons op ops : now_ids (op :: ops) = now_ids [op] ++ now_ids ops.
Proof. unfold now_ids. cbn [omap list_omap]. by destruct op. Qed.

Lemma ids_run ops videos :
  Forall keeps_id ops →
  ids (run ops videos) `sublist_of` ids videos ++ (VNum <$> now_ids ops).
Proof.
  revert videos. induction ops as [|op ops IH]; intros videos Hops.
  { cbn. by rewrite app_nil_r. }
  apply Forall_cons in Hops as [Hop Hops].
  rewrite run_cons, now_ids_cons, fmap_app, app_assoc.
  etrans; [by apply IH|].
  apply sublist_app; [by apply ids_perform|done].
Qed.

(** One request keeps the ids pairwise distinct, when a Create does not read
    a value of the clock that is already the id of a stored entity. *)
Lemma ids_unique_step op videos :
  keeps_id op →
  (∀ now_id, now_id ∈ now_ids [op] → VNum now_id ∉ ids videos) →
  NoDup (ids videos) → NoDup (ids (perform op videos).2).
Proof.
  intros Hop Hfresh Hvideos.
  apply sublist_NoDup with (ids videos ++ (VNum <$> now_ids [op]));
    [|by apply ids_perform].
  apply NoDup_app. split; [done|]. split.
  - intros id Hid (now_id & -> & Hnow)%list_elem_of_fmap.
    by apply (Hfresh now_id).
  - destruct op; cbn; try constructor; [by apply not_elem_of_nil|constructor].
Qed.

(** An Update can give an entity the id of another one. *)
Example put_videos_id_duplicates_id :
  let payload : object :=
    list_to_map [("title", VStr "A"); ("author", VStr "B");
                 ("availableResolutions", VArr [VStr "720p"])] in
  let ops :=
    [Create 1700000000001 1700000000001 1700000000001
       {| params_id := None; body := payload |};
     Create 1700000000002 1700000000002 1700000000002
       {| params_id := None; body := payload |};
     Update {| params_id := Some 1700000000002;
               body := <["id" := VNum 1700000000001]> payload |}] in
  ids (run ops []) = [VNum 1700000000001; VNum 1700000000001].
Proof. vm_compute. reflexivity. Qed.

(** **** C3, as the specification states it, fails: two Creates served in
    the same millisecond store two entities with the same id. *)
Lemma post_videos_same_millisecond :
  let req := {| params_id := None;
                body := list_to_map
                  [("title", VStr "A"); ("author", VStr "B");
                   ("availableResolutions", VArr [VStr "720p"])] |} in
  let ops := [Create 1700000000001 1700000000001 1700000000001 req;
              Create 1700000000001 1700000000001 1700000000002 req] in
  ids (run ops []) = [VNum 1700000000001; VNum 1700000000001] ∧
  ¬ NoDup (ids (run ops [])).
Proof.
  intros req ops.
  assert (ids (run ops []) = [VNum 1700000000001; VNum 1700000000001]) as ->
    by (vm_compute; reflexivity).
  split; [done|]. intros Hdup. apply NoDup_cons in Hdup as [Hin _].
  apply Hin, list_elem_of_here.
Qed.

(** **** C3, amended.  Starting from the empty store, the ids of the stored
    entities are pairwise distinct after every request of a sequence in
    which the Creates read pairwise distinct values of [Date.now()] for
    their ids and no Update has a property [id] in its payload.  (Two
    Creates in one millisecond, or an Update that carries an id, can store
    an id twice.) *)
Theorem ids_unique (ops : list Operation) (n : nat) :
  NoDup (now_ids ops) →
  Forall keeps_id ops →
  NoDup (ids (run (take n ops) [])).
Proof.
  intros Hfresh Hops.
  apply sublist_NoDup with (VNum <$> now_ids (take n ops)).
  - apply NoDup_fmap_2; [by intros ?? [= ->]|].
    rewrite <- (take_drop n ops) in Hfresh. unfold now_ids in *.
    rewrite omap_app in Hfresh. by apply NoDup_app in Hfresh as [? _].
  - apply (ids_run (take n ops) []). by apply Forall_take.
Qed.

Lemma ids_unique_witness :
  let payload : object :=
    list_to_map [("title", VStr "A"); ("author", VStr "B");
                 ("availableResolutions", VArr [VStr "720p"])] in
  let ops :=
    [Create 1700000000001 1700000000001 1700000000001
       {| params_id := None; body := payload |};
     Create 1700000000002 1700000000002 1700000000002
       {| params_id := None; body := payload |};
     Update {| params_id := Some 1700000000001;
               body := <["title" := VStr "C"]> payload |};
     Delete {| params_id := Some 1700000000001; body := ∅ |};
     Create 1700000000003 1700000000003 1700000000003
       {| params_id := None; body := payload |}] in
  NoDup (now_ids ops) ∧
  Forall keeps_id ops ∧
  ids (run (take 5 ops) []) = [VNum 1700000000002; VNum 1700000000003] ∧
  NoDup (ids (run (take 5 ops) [])).
Proof.
  intros payload ops.
  assert (NoDup (now_ids ops)) as Hfresh.
  { apply (bool_decide_unpack _). vm_compute. exact I. }
  assert (Forall keeps_id ops) as Hops by (repeat constructor).
  split; [exact Hfresh|]. split; [exact Hops|].
  split; [vm_compute; reflexivity|].
  exact (ids_unique ops 5 Hfresh Hops).
Defined.

(** * Further properties of the code *)

(** ** What the field validator accepts *)

Lemma checkEnum_None fieldName enumValues items :
  checkEnum fieldName enumValues items = Returns None ↔
  Forall (λ item, includes enumValues item = true) items.
Proof.
  induction items as [|item rest IH]; simpl; [done|].
  rewrite Forall_cons. destruct (includes enumValues item); simpl.
  - rewrite IH. tauto.
  - destruct (toString item); simpl; split; (discriminate || intros [? _]; done).
Qed.

Lemma validateField_None (value : value) (rules : ValidationRule) :
  validateField value rules = Returns None ↔ accepts value rules.
Proof.
  unfold validateField, check, accepts.
  destruct (flag rules.(isRequired)) eqn:Hrequired,
    (flag rules.(isString)) eqn:Hstring, (flag rules.(isArray)) eqn:Harray;
    destruct value as [| | | |s|items|]; cbn [andb absent Array_isArray negb elements];
    destruct rules.(minLength) as [m|]; destruct rules.(maxLength) as [M|];
    destruct rules.(enumValues) as [enum|];
    repeat match goal with
      | |- context [?a <? ?b] => destruct (Z.ltb_spec a b)
      | |- context [?a >? ?b] => destruct (Z.gtb_spec a b)
      end;
    rewrite ?checkEnum_None;
    (split;
     [ intros Hnone; try discriminate Hnone;
       repeat split; intros; simplify_eq; try done;
       eexists; (split; [reflexivity|]);
       repeat split; intros; simplify_eq; (done || lia)
     | intros (Hpresent & Hstr & Harr);
       try (by specialize (Hpresent eq_refl));
       try (destruct (Hstr eq_refl) as (? & ? & ? & ?); simplify_eq);
       try (destruct (Harr eq_refl) as (? & ? & ?); simplify_eq);
       repeat match goal with
         | Hsome : ∀ x, Some _ = Some x → _ |- _ =>
             specialize (Hsome _ eq_refl)
         end;
       try done; try lia ]).
Qed.

(** **** X1.  [validateField] returns [null] exactly for the values its rule
    accepts: present when required, a string within the length bounds when
    [isString], an array with every element in the enum when [isArray].  A
    rule with both [isString] and [isArray] accepts nothing, and
    [enumValues] without [isArray] asks nothing. *)
Theorem validateField_accepts (value : value) (rules : ValidationRule) :
  (validateField value rules = Returns None ↔ accepts value rules)
  ∧ (flag rules.(isString) = true → flag rules.(isArray) = true →
     validateField value rules ≠ Returns None)
  ∧ (flag rules.(isArray) = false → flag rules.(isString) = false →
     absent value = false → validateField value rules = Returns None).
Proof.
  split; [apply validateField_None|]. split.
  - intros Hstring Harray (_ & Hstr & Harr)%validateField_None.
    destruct (Hstr Hstring) as (s & -> & _).
    by destruct (Harr Harray) as (items & ? & _).
  - intros Harray Hstring Hpresent. apply validateField_None.
    unfold accepts. rewrite Harray, Hstring. by repeat split.
Qed.

Lemma checkEnum_app fieldName enumValues good items :
  Forall (λ item, includes enumValues item = true) good →
  checkEnum fieldName enumValues (good ++ items)
  = checkEnum fieldName enumValues items.
Proof.
  induction 1 as [|item good Hitem _ IH]; [done|].
  cbn [app checkEnum]. by rewrite Hitem.
Qed.

(** An array that is refused splits at its first element outside the
    enum. *)
Lemma checkEnum_split fieldName enumValues items :
  checkEnum fieldName enumValues items ≠ Returns None →
  ∃ good bad rest,
    items = good ++ bad :: rest ∧
    Forall (λ item, includes enumValues item = true) good ∧
    includes enumValues bad = false.
Proof.
  induction items as [|item items IH]; [done|]. cbn [checkEnum].
  destruct (includes enumValues item) eqn:Hitem; cbn [negb].
  - intros (good & bad & rest & -> & Hgood & Hbad)%IH.
    exists (item :: good), bad, rest. repeat split; [|done]. by constructor.
  - intros _. by exists [], item, items.
Qed.

(** **** X2.  On an array, a rule with [isArray] and [enumValues] reports
    the first element that is not in the enum, and only that one: the
    message is "Invalid <field>: <element>" with the element converted to a
    string, and the exception of that conversion when it throws.  The
    elements after it are not looked at. *)
Theorem validateField_first_offender
    (rules : ValidationRule) (enum : list string) (good rest : list value)
    (bad : value) :
  flag rules.(isArray) = true →
  flag rules.(isString) = false →
  rules.(enumValues) = Some enum →
  Forall (λ item, includes enum item = true) good →
  includes enum bad = false →
  validateField (VArr (good ++ bad :: rest)) rules =
    (s ← toString bad;
     Returns (Some ("Invalid " +:+ rules.(fieldName) +:+ ": " +:+ s))).
Proof.
  intros Harray Hstring Henum Hgood Hbad. unfold validateField.
  rewrite Harray, Hstring, Henum.
  cbn [absent andb Array_isArray negb elements]. rewrite andb_false_r.
  rewrite checkEnum_app by done. cbn [checkEnum]. by rewrite Hbad.
Qed.

(** A number is written as [`${item}`] writes it. *)
Example validateField_first_offender_exponent :
  validateField (VArr [VStr "720p"; VNum 1000000000000000000000; VNull])
    {| fieldName := "availableResolutions"; isArray := Some true;
       isRequired := Some true; enumValues := Some VideoQuality;
       isString := None; minLength := None; maxLength := None |}
  = Returns (Some "Invalid availableResolutions: 1e+21").
Proof. vm_compute. reflexivity. Qed.

Lemma validateField_first_offender_witness :
  let rules := {| fieldName := "availableResolutions"; isArray := Some true;
                  isRequired := Some true; enumValues := Some VideoQuality;
                  isString := None; minLength := None; maxLength := None |} in
  flag rules.(isArray) = true ∧
  flag rules.(isString) = false ∧
  rules.(enumValues) = Some VideoQuality ∧
  Forall (λ item, includes VideoQuality item = true) [VStr "144p"] ∧
  includes VideoQuality (VNum 480) = false ∧
  validateField (VArr ([VStr "144p"] ++ VNum 480 :: [VStr "4k"])) rules =
    Returns (Some "Invalid availableResolutions: 480").
Proof.
  intros rules.
  assert (Forall (λ item, includes VideoQuality item = true) [VStr "144p"])
    as Hgood by (by repeat constructor).
  split; [reflexivity|]. split; [reflexivity|]. split; [reflexivity|].
  split; [exact Hgood|]. split; [reflexivity|].
  exact (validateField_first_offender rules VideoQuality [VStr "144p"]
           [VStr "4k"] (VNum 480) eq_refl eq_refl eq_refl Hgood eq_refl).
Defined.

(** ** What the entity validator accepts, and when it throws *)

Lemma validateVideoInput_nil_valid req :
  validateVideoInput req = Returns [] → valid_payload req.(body).
Proof.
  intros (title & author & resolutions & Htitle & Hauthor & Hresolutions & Hnil)
    %validateVideoInput_inv.
  assert (title = None ∧ author = None ∧ resolutions = None) as (-> & -> & ->)
    by (by destruct title, author, resolutions).
  apply validateField_None in Htitle as (_ & Htitle & _).
  apply validateField_None in Hauthor as (_ & Hauthor & _).
  apply validateField_None in Hresolutions as (_ & _ & Hresolutions).
  destruct (Htitle eq_refl) as (s & Hs & Hmin & Hmax).
  destruct (Hauthor eq_refl) as (s' & Hs' & Hmin' & Hmax').
  destruct (Hresolutions eq_refl) as (items & Hitems & Henum).
  specialize (Hmin _ eq_refl). specialize (Hmax _ eq_refl).
  specialize (Hmin' _ eq_refl). specialize (Hmax' _ eq_refl).
  repeat split.
  - exists s. split; [done|lia].
  - exists s'. split; [done|lia].
  - exists items. split; [done|]. by apply Henum.
Qed.

Lemma valid_payload_validates req :
  valid_payload req.(body) → validateVideoInput req = Returns [].
Proof.
  intros ((s & Hs & Hlen) & (s' & Hs' & Hlen') & (items & Hitems & Henum)).
  destruct (validateVideoInput_returns req None)
    as (title & author & Htitle & Hauthor & ->).
  { apply validateField_None. rewrite Hitems. repeat split; [done|].
    intros _. exists items. split; [done|]. by intros ? [= <-]. }
  assert (title = None) as ->.
  { assert (validateField (get req.(body) "title")
      {| fieldName := "title"; isRequired := Some true; isString := Some true;
         minLength := Some 1; maxLength := Some 40;
         isArray := None; enumValues := None |} = Returns None) as Hnone;
      [|congruence].
    apply validateField_None. rewrite Hs. repeat split; [|done].
    intros _. exists s. split; [done|].
    split; intros ? [= <-]; lia. }
  assert (author = None) as ->; [|done].
  assert (validateField (get req.(body) "author")
    {| fieldName := "author"; isRequired := Some true; isString := Some true;
       minLength := Some 1; maxLength := Some 20;
       isArray := None; enumValues := None |} = Returns None) as Hnone;
    [|congruence].
  apply validateField_None. rewrite Hs'. repeat split; [|done].
  intros _. exists s'. split; [done|].
  split; intros ? [= <-]; lia.
Qed.

(** **** X3.  The entity validator returns the empty list exactly for the
    payloads whose [title] is a string of 1 to 40 characters, whose [author]
    is a string of 1 to 20 characters and whose [availableResolutions] is an
    array of values of the enum (the empty array included); properties other
    than these three play no part. *)
Theorem validateVideoInput_accepts (req : Request) :
  validateVideoInput req = Returns [] ↔ valid_payload req.(body).
Proof.
  split; [apply validateVideoInput_nil_valid|apply valid_payload_validates].
Qed.

Lemma toString_VArr (items : list value) :
  toString (VArr items) = joinElements items.
Proof. reflexivity. Qed.

Lemma joinElements_cons (x y : value) (rest : list value) :
  joinElements (x :: y :: rest) =
    (s ← (if absent x then Returns "" else toString x);
     r ← joinElements (y :: rest); Returns (s +:+ "," +:+ r)).
Proof. reflexivity. Qed.

(** Induction on a value that reaches the elements of its arrays (the
    recursion of [toString]). *)
Lemma value_elements_ind (P : value → Prop) :
  (∀ v, Array_isArray v = false → P v) →
  (∀ items, Forall P items → P (VArr items)) →
  ∀ v, P v.
Proof.
  intros Hother Harray. fix IH 1. intros v.
  destruct v as [| | | | |items|props]; try (by apply Hother).
  apply Harray. induction items as [|x items IHitems]; constructor.
  - apply IH.
  - exact IHitems.
Qed.

(** The only exception of a string conversion is the TypeError. *)
Lemma toString_TypeError (v : value) (e : exn) :
  toString v = Throws e → e = TypeError.
Proof.
  revert e. induction v as [v Hv|items IH] using value_elements_ind; intros e.
  - destruct v as [| |[]| | | |props]; try discriminate.
    cbn [toString]. destruct (props !! "toString"); [|discriminate].
    by intros [= <-].
  - rewrite toString_VArr.
    induction IH as [|x [|y rest] Hx _ IHitems].
    + discriminate.
    + cbn [joinElements]. destruct (absent x); [discriminate|]. apply Hx.
    + rewrite joinElements_cons.
      destruct (if absent x then Returns "" else toString x) eqn:Helement;
        cbn [mbind outcome_bind].
      * destruct (joinElements (y :: rest)); cbn [mbind outcome_bind];
          [discriminate|].
        intros [= <-]. by apply IHitems.
      * intros [= <-]. destruct (absent x); [discriminate|]. by apply Hx.
Qed.

Lemma checkEnum_Throws fieldName enumValues items e :
  checkEnum fieldName enumValues items = Throws e ↔
  ∃ good bad rest,
    items = good ++ bad :: rest ∧
    Forall (λ item, includes enumValues item = true) good ∧
    includes enumValues bad = false ∧ toString bad = Throws e.
Proof.
  split.
  - intros Hthrows.
    destruct (checkEnum_split fieldName enumValues items)
      as (good & bad & rest & -> & Hgood & Hbad); [congruence|].
    exists good, bad, rest. repeat split; [done..|].
    rewrite checkEnum_app in Hthrows by done. cbn [checkEnum] in Hthrows.
    rewrite Hbad in Hthrows. cbn [negb] in Hthrows.
    destruct (toString bad); cbn [mbind outcome_bind] in Hthrows;
      [discriminate Hthrows|by injection Hthrows as ->].
  - intros (good & bad & rest & -> & Hgood & Hbad & Hthrows).
    rewrite checkEnum_app by done. cbn [checkEnum].
    by rewrite Hbad, Hthrows.
Qed.

Lemma validateVideoInput_resolutions_throws req e :
  validateField (get req.(body) "availableResolutions")
    {| fieldName := "availableResolutions"; isArray := Some true;
       isRequired := Some true; enumValues := Some VideoQuality;
       isString := None; minLength := None; maxLength := None |} = Throws e →
  validateVideoInput req = Throws e.
Proof.
  intros Hresolutions.
  unfold validateVideoInput. rewrite validateRules_mapM.
  unfold validationRules, mapM. cbn [fieldName]. rewrite Hresolutions.
  destruct (validateField_no_array (get req.(body) "title")
    {| fieldName := "title"; isRequired := Some true; isString := Some true;
       minLength := Some 1; maxLength := Some 40;
       isArray := None; enumValues := None |} eq_refl) as [title ->].
  by destruct (validateField_no_array (get req.(body) "author")
    {| fieldName := "author"; isRequired := Some true; isString := Some true;
       minLength := Some 1; maxLength := Some 20;
       isArray := None; enumValues := None |} eq_refl) as [author ->].
Qed.

Lemma validateField_resolutions_throws value e :
  validateField value
    {| fieldName := "availableResolutions"; isArray := Some true;
       isRequired := Some true; enumValues := Some VideoQuality;
       isString := None; minLength := None; maxLength := None |} = Throws e ↔
  ∃ items, value = VArr items ∧
           checkEnum "availableResolutions" VideoQuality items = Throws e.
Proof.
  unfold validateField.
  destruct value as [| | | | |items|]; simpl;
    try (split; [discriminate|by intros (? & ? & ?)]).
  split; [by exists items|by intros (? & [= <-] & ?)].
Qed.

(** **** X4.  The entity validator throws exactly when
    [availableResolutions] is an array whose first element outside the enum
    cannot be converted to a string, whatever [title] and [author] are; the
    exception is then the TypeError of that conversion.  In every other case
    it returns its list of messages. *)
Theorem validateVideoInput_throws (req : Request) (e : exn) :
  validateVideoInput req = Throws e ↔
  e = TypeError ∧
  ∃ good bad rest,
    get req.(body) "availableResolutions" = VArr (good ++ bad :: rest) ∧
    Forall (λ item, includes VideoQuality item = true) good ∧
    includes VideoQuality bad = false ∧ toString bad = Throws TypeError.
Proof.
  assert (validateVideoInput req = Throws e ↔
          ∃ items, get req.(body) "availableResolutions" = VArr items ∧
                   checkEnum "availableResolutions" VideoQuality items
                   = Throws e) as ->.
  { rewrite <- validateField_resolutions_throws. split.
    - intros Hthrows.
      destruct (validateField (get req.(body) "availableResolutions") _)
        as [resolutions|e'] eqn:Hresolutions.
      + apply validateVideoInput_returns in Hresolutions
          as (? & ? & _ & _ & ?). congruence.
      + apply validateVideoInput_resolutions_throws in Hresolutions.
        congruence.
    - apply validateVideoInput_resolutions_throws. }
  split.
  - intros (items & Hitems & (good & bad & rest & -> & ? & ? & Hthrows)
              %checkEnum_Throws).
    pose proof (toString_TypeError _ _ Hthrows) as ->.
    split; [done|]. by exists good, bad, rest.
  - intros (-> & good & bad & rest & Hitems & ? & ? & ?).
    eexists. split; [done|]. apply checkEnum_Throws. by exists good, bad, rest.
Qed.

(** ** Create, case by case *)

Lemma post_videos_cases now_id now_createdAt now_publicationDate req videos :
  ((post_videos now_id now_createdAt now_publicationDate req videos).2 = videos
   ∧ ∀ newVideo,
       (post_videos now_id now_createdAt now_publicationDate req videos).1
       ≠ created newVideo)
  ∨ (validateVideoInput req = Returns [] ∧
     ∃ createdAt publicationDate,
       toISOString now_createdAt = Returns createdAt ∧
       toISOString (now_publicationDate + 86400000) = Returns publicationDate ∧
       post_videos now_id now_createdAt now_publicationDate req videos =
         (created (newVideo_of now_id createdAt publicationDate req.(body)),
          videos
          ++ [newVideo_of now_id createdAt publicationDate req.(body)])).
Proof.
  unfold post_videos.
  destruct (validateVideoInput req) as [[|error errors]|e]; [|by left..].
  cbn [length Z.of_nat Z.gtb Z.compare].
  destruct (toISOString now_createdAt) as [createdAt|]; [|by left].
  destruct (toISOString _) as [publicationDate|]; [|by left].
  right. split; [done|]. by exists createdAt, publicationDate.
Qed.

Lemma get_newVideo_of now_id createdAt publicationDate body :
  get (newVideo_of now_id createdAt publicationDate body) "id" = VNum now_id
  ∧ get (newVideo_of now_id createdAt publicationDate body) "title"
    = get body "title"
  ∧ get (newVideo_of now_id createdAt publicationDate body) "author"
    = get body "author"
  ∧ get (newVideo_of now_id createdAt publicationDate body) "canBeDownloaded"
    = js_or (get body "canBeDownloaded") (VBool false)
  ∧ get (newVideo_of now_id createdAt publicationDate body)
      "minAgeRestriction"
    = js_or (get body "minAgeRestriction") VNull
  ∧ get (newVideo_of now_id createdAt publicationDate body) "createdAt"
    = VStr createdAt
  ∧ get (newVideo_of now_id createdAt publicationDate body) "publicationDate"
    = VStr publicationDate
  ∧ get (newVideo_of now_id createdAt publicationDate body)
      "availableResolutions"
    = js_or (get body "availableResolutions") (VArr []).
Proof. repeat split. Qed.

Lemma dom_newVideo_of now_id createdAt publicationDate body :
  dom (newVideo_of now_id createdAt publicationDate body) = entity_keys.
Proof.
  unfold newVideo_of, entity_keys. rewrite dom_list_to_map_L. reflexivity.
Qed.

(** **** X5.  The entity a Create returns and stores has exactly the eight
    properties of the object literal.  Its [id] is the clock reading, its
    [title], [author] and [availableResolutions] are those of the payload,
    and [canBeDownloaded] and [minAgeRestriction] are the payload's values
    when these are truthy, of whatever type.  Anything else in the payload,
    an [id], a [createdAt] or an unknown property, is ignored. *)
Theorem post_videos_entity
    (now_id now_createdAt now_publicationDate : Z) (req : Request)
    (videos videos' : list object) (newVideo : object) :
  post_videos now_id now_createdAt now_publicationDate req videos =
    (created newVideo, videos') →
  videos' = videos ++ [newVideo] ∧
  dom newVideo = entity_keys ∧
  get newVideo "id" = VNum now_id ∧
  get newVideo "title" = get req.(body) "title" ∧
  get newVideo "author" = get req.(body) "author" ∧
  get newVideo "availableResolutions" = get req.(body) "availableResolutions"
  ∧ (truthy (get req.(body) "canBeDownloaded") = true →
     get newVideo "canBeDownloaded" = get req.(body) "canBeDownloaded") ∧
  (truthy (get req.(body) "minAgeRestriction") = true →
   get newVideo "minAgeRestriction" = get req.(body) "minAgeRestriction") ∧
  date_of newVideo "createdAt" = Some now_createdAt ∧
  date_of newVideo "publicationDate" = Some (now_publicationDate + 86400000).
Proof.
  intros Hpost.
  destruct (post_videos_cases now_id now_createdAt now_publicationDate req
              videos)
    as [[_ Hnot]|(Hvalid & createdAt & publicationDate & HcreatedAt
                  & HpublicationDate & Hcreated)].
  { rewrite Hpost in Hnot. by destruct (Hnot newVideo). }
  rewrite Hcreated in Hpost. unfold created in Hpost.
  injection Hpost as <- <-.
  apply validateVideoInput_nil_valid in Hvalid as (_ & _ & items & Hitems & _).
  apply Date_parse_toISOString in HcreatedAt, HpublicationDate.
  pose proof (get_newVideo_of now_id createdAt publicationDate req.(body))
    as (Hid & Htitle & Hauthor & Hdownload & Hage & Hcreation & Hpublication
        & Hresolutions).
  split; [done|]. split; [apply dom_newVideo_of|].
  split; [done|]. split; [done|]. split; [done|].
  split; [by rewrite Hresolutions, Hitems|].
  split; [intros Htruthy; by rewrite Hdownload; unfold js_or; rewrite Htruthy|].
  split; [intros Htruthy; by rewrite Hage; unfold js_or; rewrite Htruthy|].
  unfold date_of. by rewrite Hcreation, Hpublication.
Qed.

Lemma post_videos_entity_witness :
  let req := {| params_id := None;
                body := list_to_map
                  [("id", VNum 7); ("title", VStr "A"); ("author", VStr "B");
                   ("canBeDownloaded", VStr "yes"); ("rating", VNum 5);
                   ("availableResolutions", VArr [VStr "720p"])] |} in
  let newVideo :=
    newVideo_of 1700000000000 "2023-11-14T22:13:20.000Z"
      "2023-11-15T22:13:20.000Z" req.(body) in
  post_videos 1700000000000 1700000000000 1700000000000 req [] =
    (created newVideo, [newVideo]) ∧
  get newVideo "id" = VNum 1700000000000 ∧
  get newVideo "rating" = VUndefined ∧
  get newVideo "canBeDownloaded" = VStr "yes" ∧
  date_of newVideo "publicationDate" = Some (1700000000000 + 86400000).
Proof.
  intros req newVideo.
  assert (post_videos 1700000000000 1700000000000 1700000000000 req [] =
            (created newVideo, [newVideo])) as Hpost
    by reflexivity.
  split; [exact Hpost|].
  destruct (post_videos_entity _ _ _ _ _ _ _ Hpost)
    as (_ & _ & Hid & _ & _ & _ & Hdownload & _ & _ & Hpublication).
  split; [exact Hid|]. split; [reflexivity|].
  split; [exact (Hdownload eq_refl)|exact Hpublication].
Defined.

(** ** Get *)

(** **** X6.  Get answers with the first stored entity whose id is the
    number of the route, and with [res.send(404)] exactly when no stored
    entity has that id (in particular on the empty store and for a parameter
    that is not a number); it never changes the store. *)
Theorem get_videos_id_cases (req : Request) (videos : list object) :
  (get_videos_id req videos).2 = videos ∧
  ((Forall (λ video, has_id req.(params_id) video = false) videos ∧
    (get_videos_id req videos).1 = Returns (res_send (VNum 404)))
   ∨ (∃ (k : nat) (video : object),
        videos !! k = Some video ∧ has_id req.(params_id) video = true ∧
        Forall (λ video, has_id req.(params_id) video = false)
          (take k videos) ∧
        (get_videos_id req videos).1 = Returns (res_send (VObj video))))
  ∧ (req.(params_id) = None →
     (get_videos_id req videos).1 = Returns (res_send (VNum 404))).
Proof.
  assert ((Forall (λ video, has_id req.(params_id) video = false) videos ∧
           get_videos_id req videos = (Returns (res_send (VNum 404)), videos))
          ∨ (∃ (k : nat) (video : object),
               videos !! k = Some video ∧ has_id req.(params_id) video = true ∧
               Forall (λ video, has_id req.(params_id) video = false)
                 (take k videos) ∧
               get_videos_id req videos =
                 (Returns (res_send (VObj video)), videos))) as Hcases.
  { unfold get_videos_id.
    destruct (findIndex_cases (has_id req.(params_id)) videos)
      as [[-> Hall]|(k & video & -> & Hk & Hvideo & Hbefore)].
    - by left.
    - right. exists k, video. repeat split; [done..|].
      destruct (Z.eqb_spec (Z.of_nat k) (-1)); [lia|]. cbn [negb].
      by rewrite Nat2Z.id, Hk. }
  split; [by destruct Hcases as [[_ ->]|(? & ? & _ & _ & _ & ->)]|].
  split.
  - destruct Hcases as [[? ->]|(k & video & ? & ? & ? & ->)]; [by left|].
    right. by exists k, video.
  - intros Hnan.
    destruct Hcases as [[_ ->]|(k & video & _ & Hvideo & _)]; [done|].
    rewrite Hnan in Hvideo. unfold has_id, strict_eq_number in Hvideo.
    by destruct (get video "id").
Qed.

Lemma has_id_app_fresh id videos video :
  Forall (λ video, has_id id video = false) videos →
  has_id id video = true →
  findIndex (has_id id) (videos ++ [video]) = Z.of_nat (length videos).
Proof.
  intros Hfresh Hvideo.
  destruct (findIndex_cases (has_id id) (videos ++ [video]))
    as [[_ Hall]|(k & found & -> & Hk & Hfound & Hbefore)].
  { apply Forall_app in Hall as [_ Hall].
    apply Forall_cons in Hall as [Hall _]. congruence. }
  f_equal. destruct (decide (k < length videos)%nat) as [Hlt|Hge].
  - rewrite lookup_app_l in Hk by done.
    rewrite Forall_forall in Hfresh.
    apply list_elem_of_lookup_2, Hfresh in Hk. congruence.
  - apply lookup_lt_Some in Hk. rewrite length_app in Hk. simpl in Hk. lia.
Qed.

(** **** X7.  A Create that succeeds on a store in which no entity has the
    id it reads from the clock can be read back: the Get of that id
    answers with the entity the Create returned. *)
Theorem get_after_post
    (now_id now_createdAt now_publicationDate : Z) (req : Request)
    (videos videos' : list object) (newVideo : object) :
  Forall (λ video, has_id (Some now_id) video = false) videos →
  post_videos now_id now_createdAt now_publicationDate req videos =
    (created newVideo, videos') →
  get_videos_id {| params_id := Some now_id; body := ∅ |} videos' =
    (Returns (res_send (VObj newVideo)), videos').
Proof.
  intros Hfresh Hpost.
  destruct (post_videos_cases now_id now_createdAt now_publicationDate req
              videos)
    as [[_ Hnot]|(_ & createdAt & publicationDate & _ & _ & Hcreated)].
  { rewrite Hpost in Hnot. by destruct (Hnot newVideo). }
  rewrite Hcreated in Hpost. unfold created in Hpost.
  injection Hpost as <- <-.
  unfold get_videos_id. cbn [params_id].
  rewrite has_id_app_fresh; [|done|].
  - destruct (Z.eqb_spec (Z.of_nat (length videos)) (-1)); [lia|].
    cbn [negb]. rewrite Nat2Z.id, lookup_app_r, Nat.sub_diag by done.
    reflexivity.
  - unfold has_id, strict_eq_number.
    destruct (get_newVideo_of now_id createdAt publicationDate req.(body))
      as [-> _].
    apply Z.eqb_refl.
Qed.

Lemma get_after_post_witness :
  let stored : object :=
    list_to_map [("id", VNum 1); ("title", VStr "A"); ("author", VStr "B");
                 ("availableResolutions", VArr [])] in
  let req := {| params_id := None;
                body := list_to_map
                  [("title", VStr "C"); ("author", VStr "D");
                   ("availableResolutions", VArr [VStr "720p"])] |} in
  let newVideo :=
    newVideo_of 1700000000000 "2023-11-14T22:13:20.000Z"
      "2023-11-15T22:13:20.000Z" req.(body) in
  Forall (λ video, has_id (Some 1700000000000) video = false) [stored] ∧
  post_videos 1700000000000 1700000000000 1700000000000 req [stored] =
    (created newVideo, [stored; newVideo]) ∧
  get_videos_id {| params_id := Some 1700000000000; body := ∅ |}
    [stored; newVideo] =
    (Returns (res_send (VObj newVideo)), [stored; newVideo]).
Proof.
  intros stored req newVideo.
  assert (Forall (λ video, has_id (Some 1700000000000) video = false)
            [stored]) as Hfresh by (by repeat constructor).
  assert (post_videos 1700000000000 1700000000000 1700000000000 req [stored]
          = (created newVideo, [stored; newVideo])) as Hpost
    by reflexivity.
  split; [exact Hfresh|]. split; [exact Hpost|].
  exact (get_after_post _ _ _ _ _ _ _ Hfresh Hpost).
Defined.

(** ** Delete *)

(** **** X8.  Delete answers with [res.send(404)] exactly when no stored
    entity has the id, and this is the only case in which it leaves the
    store as it is: otherwise it answers [res.send(204)] and the store has
    one entity less. *)
Theorem delete_videos_id_not_found (req : Request) (videos : list object) :
  (Forall (λ video, has_id req.(params_id) video = false) videos ↔
   (delete_videos_id req videos).1 = Returns (res_send (VNum 404)))
  ∧ ((delete_videos_id req videos).1 = Returns (res_send (VNum 404)) ↔
     (delete_videos_id req videos).2 = videos)
  ∧ ((delete_videos_id req videos).1 = Returns (res_send (VNum 204)) ↔
     S (length (delete_videos_id req videos).2) = length videos).
Proof.
  destruct (delete_videos_id_cases req videos)
    as [[Hnone ->]|(k & video & Hk & Hvideo & _ & ->)]; cbn [fst snd].
  - repeat split; try done. lia.
  - assert (S (length (delete k videos)) = length videos) as Hlength.
    { rewrite length_delete by (by exists video).
      apply lookup_lt_Some in Hk. lia. }
    repeat split; try done.
    + intros Hnone. rewrite Forall_forall in Hnone.
      apply list_elem_of_lookup_2, Hnone in Hk. congruence.
    + intros Hsame. rewrite Hsame in Hlength. lia.
Qed.

Lemma has_id_get id video :
  has_id id video = true → ∃ n, id = Some n ∧ get video "id" = VNum n.
Proof.
  unfold has_id, strict_eq_number.
  destruct (get video "id") as [| | |n| | |]; try done.
  destruct id as [m|]; [|done]. intros ->%Z.eqb_eq. by exists m.
Qed.

(** With pairwise distinct ids, the entity a Delete removes was the only
    one with its id. *)
Lemma delete_videos_id_removes_id (req : Request) (videos : list object) :
  NoDup (ids videos) →
  (delete_videos_id req videos).1 = Returns (res_send (VNum 204)) →
  Forall (λ video, has_id req.(params_id) video = false)
    (delete_videos_id req videos).2.
Proof.
  intros Hunique Hdeleted.
  destruct (delete_videos_id_cases req videos)
    as [[_ Hmissing]|(k & video & Hk & Hvideo & _ & Hfound)];
    [by rewrite Hmissing in Hdeleted|].
  rewrite Hfound. cbn [snd]. apply Forall_forall. intros other Hin.
  destruct (has_id req.(params_id) other) eqn:Hother; [exfalso|done].
  apply has_id_get in Hvideo as (n & Hn & Hid).
  apply has_id_get in Hother as (n' & Hn' & Hid').
  assert (n' = n) as -> by congruence.
  rewrite <- (take_drop_middle videos k video Hk) in Hunique.
  rewrite delete_take_drop in Hin.
  rewrite ids_app in Hunique. cbn [ids fmap list_fmap] in Hunique.
  apply NoDup_app in Hunique as (_ & Hbefore & [Hafter _]%NoDup_cons).
  apply elem_of_app in Hin as [Hin|Hin].
  - apply (Hbefore (VNum n)).
    + rewrite <- Hid'.
      by apply (list_elem_of_fmap_2 (λ video, get video "id")).
    + rewrite Hid. apply list_elem_of_here.
  - apply Hafter. rewrite Hid, <- Hid'.
    by apply (list_elem_of_fmap_2 (λ video, get video "id")).
Qed.

(** **** X9.  When the ids of the stored entities are pairwise distinct, a
    Delete that succeeded cannot be repeated and the entity cannot be read
    any more: the same Delete is then answered [res.send(404)] and changes
    nothing, and so is the Get of that id. *)
Theorem delete_videos_id_twice (req : Request) (videos : list object) :
  NoDup (ids videos) →
  (delete_videos_id req videos).1 = Returns (res_send (VNum 204)) →
  delete_videos_id req (delete_videos_id req videos).2 =
    (Returns (res_send (VNum 404)), (delete_videos_id req videos).2)
  ∧ get_videos_id req (delete_videos_id req videos).2 =
      (Returns (res_send (VNum 404)), (delete_videos_id req videos).2).
Proof.
  intros Hunique Hdeleted.
  pose proof (delete_videos_id_removes_id req videos Hunique Hdeleted)
    as Hgone.
  apply findIndex_none in Hgone.
  unfold delete_videos_id at 1, get_videos_id. by rewrite Hgone.
Qed.

Lemma delete_videos_id_twice_witness :
  let entity (id : Z) : object :=
    list_to_map [("id", VNum id); ("title", VStr "A"); ("author", VStr "B");
                 ("availableResolutions", VArr [])] in
  let videos := [entity 1; entity 2; entity 3] in
  let req := {| params_id := Some 2; body := ∅ |} in
  NoDup (ids videos) ∧
  (delete_videos_id req videos).1 = Returns (res_send (VNum 204)) ∧
  (delete_videos_id req videos).2 = [entity 1; entity 3] ∧
  delete_videos_id req (delete_videos_id req videos).2 =
    (Returns (res_send (VNum 404)), (delete_videos_id req videos).2) ∧
  get_videos_id req (delete_videos_id req videos).2 =
    (Returns (res_send (VNum 404)), (delete_videos_id req videos).2).
Proof.
  intros entity videos req.
  assert (NoDup (ids videos)) as Hunique.
  { change (NoDup (VNum <$> [1; 2; 3])).
    apply NoDup_fmap_2; [by intros ?? [= ->]|].
    apply (bool_decide_unpack _). vm_compute. exact I. }
  assert ((delete_videos_id req videos).1 = Returns (res_send (VNum 204)))
    as Hdeleted by (vm_compute; reflexivity).
  split; [exact Hunique|]. split; [exact Hdeleted|].
  split; [reflexivity|].
  exact (delete_videos_id_twice req videos Hunique Hdeleted).
Defined.

(** ** Update *)

(** The first element that satisfies a test is at one index only. *)
Lemma first_match_unique {A : Type} (p : A → bool) (l : list A)
    (k k' : nat) (x x' : A) :
  l !! k = Some x → p x = true → Forall (λ y, p y = false) (take k l) →
  l !! k' = Some x' → p x' = true → Forall (λ y, p y = false) (take k' l) →
  k = k'.
Proof.
  intros Hk Hx Hbefore Hk' Hx' Hbefore'.
  rewrite Forall_forall in Hbefore, Hbefore'.
  destruct (Nat.lt_trichotomy k k') as [Hlt|[->|Hlt]]; [|done|].
  - assert (x ∈ take k' l) as Hin%Hbefore'; [|congruence].
    apply list_elem_of_lookup. exists k. by rewrite lookup_take_lt.
  - assert (x' ∈ take k l) as Hin%Hbefore; [|congruence].
    apply list_elem_of_lookup. exists k'. by rewrite lookup_take_lt.
Qed.

(** **** X10.  An Update with a valid payload replaces the first entity that
    has the id by its merge with the payload and answers 204 with an empty
    body: the merged entity has every property of the payload with the
    payload's value, known to the validator or not, and keeps every other
    property of the stored entity as it was; the other entities and the
    length of the store do not change. *)
Theorem put_videos_id_merge (req : Request) (videos : list object)
    (k : nat) (video : object) :
  validateVideoInput req = Returns [] →
  videos !! k = Some video →
  has_id req.(params_id) video = true →
  Forall (λ video, has_id req.(params_id) video = false) (take k videos) →
  (put_videos_id req videos).1 = Returns (res_status_send 204) ∧
  length (put_videos_id req videos).2 = length videos ∧
  (∀ j, j ≠ k → (put_videos_id req videos).2 !! j = videos !! j) ∧
  ∃ merged,
    (put_videos_id req videos).2 !! k = Some merged ∧
    (∀ key v, req.(body) !! key = Some v → merged !! key = Some v) ∧
    (∀ key, req.(body) !! key = None → merged !! key = video !! key).
Proof.
  intros Hvalid Hk Hvideo Hbefore.
  destruct (put_videos_id_cases req videos Hvalid)
    as [[Hnone _]|(k' & video' & Hk' & Hvideo' & Hbefore' & ->)].
  { rewrite Forall_forall in Hnone.
    apply list_elem_of_lookup_2, Hnone in Hk. congruence. }
  assert (k = k') as <- by (by eapply (first_match_unique _ videos)).
  assert (video' = video) as -> by congruence.
  cbn [fst snd]. split; [done|]. split; [apply length_insert|].
  split; [by intros j Hj; apply list_lookup_insert_ne|].
  exists (req.(body) ∪ video). split.
  - apply list_lookup_insert_eq. by eapply lookup_lt_Some.
  - split.
    + intros key v Hkey. by apply lookup_union_Some_l.
    + intros key Hkey. by apply lookup_union_r.
Qed.

Lemma put_videos_id_merge_witness :
  let stored : object :=
    list_to_map [("id", VNum 1); ("title", VStr "A"); ("author", VStr "B");
                 ("createdAt", VStr "2023-11-14T22:13:20.000Z");
                 ("availableResolutions", VArr [])] in
  let req := {| params_id := Some 1;
                body := list_to_map
                  [("title", VStr "C"); ("author", VStr "D");
                   ("rating", VNum 5);
                   ("availableResolutions", VArr [VStr "720p"])] |} in
  validateVideoInput req = Returns [] ∧
  [stored] !! 0%nat = Some stored ∧
  has_id req.(params_id) stored = true ∧
  Forall (λ video, has_id req.(params_id) video = false) (take 0 [stored]) ∧
  (put_videos_id req [stored]).1 = Returns (res_status_send 204) ∧
  ∃ merged,
    (put_videos_id req [stored]).2 !! 0%nat = Some merged ∧
    merged !! "rating" = Some (VNum 5) ∧
    merged !! "title" = Some (VStr "C") ∧
    merged !! "createdAt" = Some (VStr "2023-11-14T22:13:20.000Z").
Proof.
  intros stored req.
  assert (validateVideoInput req = Returns []) as Hvalid
    by (vm_compute; reflexivity).
  assert (has_id req.(params_id) stored = true) as Hstored
    by (vm_compute; reflexivity).
  split; [exact Hvalid|]. split; [reflexivity|]. split; [exact Hstored|].
  split; [constructor|].
  destruct (put_videos_id_merge req [stored] 0 stored Hvalid eq_refl Hstored
              (Forall_nil_2 _))
    as (Hanswer & _ & _ & merged & Hmerged & Hpayload & Hkept).
  split; [exact Hanswer|]. exists merged. split; [exact Hmerged|].
  split; [apply Hpayload; reflexivity|].
  split; [apply Hpayload; reflexivity|].
  rewrite Hkept by reflexivity. reflexivity.
Defined.

Lemma has_id_spread id (payload video : object) :
  payload !! "id" = None → has_id id (payload ∪ video) = has_id id video.
Proof. intros Hid. unfold has_id. by rewrite get_id_spread. Qed.

(** **** X11.  An Update whose payload has no [id] is idempotent: serving
    the same request a second time gives the same answer and leaves the
    store as the first one left it. *)
Theorem put_videos_id_idempotent (req : Request) (videos : list object) :
  req.(body) !! "id" = None →
  put_videos_id req (put_videos_id req videos).2 = put_videos_id req videos.
Proof.
  intros Hid.
  destruct (validateVideoInput req) as [[|error errors]|e] eqn:Hvalid.
  - destruct (put_videos_id_cases req videos Hvalid)
      as [[_ Hput]|(k & video & Hk & Hvideo & Hbefore & Hput)];
      rewrite Hput; cbn [snd]; [done|].
    assert (k < length videos)%nat as Hlt by (by eapply lookup_lt_Some).
    destruct (put_videos_id_cases req (<[k := req.(body) ∪ video]> videos)
                Hvalid)
      as [[Hnone _]|(k' & video' & Hk' & Hvideo' & Hbefore' & ->)].
    + rewrite Forall_forall in Hnone.
      assert (has_id req.(params_id) (req.(body) ∪ video) = false) as Hmerged.
      { apply Hnone, list_elem_of_lookup. exists k.
        by apply list_lookup_insert_eq. }
      rewrite has_id_spread in Hmerged by done. congruence.
    + assert (k = k') as <-.
      { eapply (first_match_unique _ (<[k := req.(body) ∪ video]> videos));
          [by apply list_lookup_insert_eq| |by rewrite take_insert_ge|done..].
        by rewrite has_id_spread. }
      rewrite list_lookup_insert_eq in Hk' by done. injection Hk' as <-.
      rewrite list_insert_insert_eq.
      by rewrite (assoc_L (∪)), (idemp_L (∪)).
  - by rewrite !(put_videos_id_invalid _ _ (error :: errors)).
  - unfold put_videos_id. by rewrite Hvalid.
Qed.

Lemma put_videos_id_idempotent_witness :
  let stored : object :=
    list_to_map [("id", VNum 1); ("title", VStr "A"); ("author", VStr "B");
                 ("availableResolutions", VArr [])] in
  let req := {| params_id := Some 1;
                body := list_to_map
                  [("title", VStr "C"); ("author", VStr "D");
                   ("availableResolutions", VArr [VStr "720p"])] |} in
  req.(body) !! "id" = None ∧
  (put_videos_id req [stored]).1 = Returns (res_status_send 204) ∧
  put_videos_id req (put_videos_id req [stored]).2
  = put_videos_id req [stored].
Proof.
  intros stored req.
  split; [reflexivity|]. split; [reflexivity|].
  exact (put_videos_id_idempotent req [stored] eq_refl).
Defined.

(** ** Answers and the store *)

(** **** X12.  The answer 400 is given exactly when the validator returns a
    list that is not empty, with one entry per message and the same body for
    Create and for Update, whatever the store, the clock and the id are. *)
Theorem validation_failed_answer
    (now_id now_createdAt now_publicationDate : Z) (req : Request)
    (videos videos' : list object) (answer : value) :
  ((post_videos now_id now_createdAt now_publicationDate req videos).1
   = Returns (res_status_json 400 answer) ↔
   ∃ validationErrors,
     validateVideoInput req = Returns validationErrors ∧
     validationErrors ≠ [] ∧ answer = errorsMessages validationErrors)
  ∧ ((put_videos_id req videos').1 = Returns (res_status_json 400 answer) ↔
     ∃ validationErrors,
       validateVideoInput req = Returns validationErrors ∧
       validationErrors ≠ [] ∧ answer = errorsMessages validationErrors).
Proof.
  split.
  - destruct (validateVideoInput req) as [[|error errors]|e] eqn:Hvalid.
    + split; [|by intros (? & [= <-] & ? & _)].
      destruct (post_videos_cases now_id now_createdAt now_publicationDate
                  req videos)
        as [[_ Hnot]|(_ & ? & ? & _ & _ & ->)]; [|done].
      unfold post_videos. rewrite Hvalid. cbn [length Z.of_nat Z.gtb Z.compare].
      destruct (toISOString now_createdAt); [|done].
      by destruct (toISOString _).
    + rewrite (post_videos_invalid _ _ _ _ _ (error :: errors)) by done.
      cbn [fst]. split.
      * intros [= <-]. by exists (error :: errors).
      * by intros (? & [= <-] & _ & ->).
    + rewrite (post_videos_throws _ _ _ _ _ e) by done.
      split; [done|by intros (? & ? & _)].
  - destruct (validateVideoInput req) as [[|error errors]|e] eqn:Hvalid.
    + split; [|by intros (? & [= <-] & ? & _)].
      by destruct (put_videos_id_cases req videos' Hvalid)
        as [[_ ->]|(? & ? & _ & _ & _ & ->)].
    + rewrite (put_videos_id_invalid _ _ (error :: errors)) by done.
      cbn [fst]. split.
      * intros [= <-]. by exists (error :: errors).
      * by intros (? & [= <-] & _ & ->).
    + unfold put_videos_id. rewrite Hvalid.
      split; [done|by intros (? & ? & _)].
Qed.

Lemma perform_length (op : Operation) (videos : list object) :
  Z.of_nat (length (perform op videos).2) =
  Z.of_nat (length videos) + size_change op (perform op videos).1.
Proof.
  destruct op as [|req|now_id now_createdAt now_publicationDate req|req|req];
    cbn [perform].
  - cbn. lia.
  - unfold get_videos_id. destruct (negb _); cbn; lia.
  - destruct (post_videos_cases now_id now_createdAt now_publicationDate req
                videos) as [[-> Hnot]|(_ & ? & ? & _ & _ & ->)].
    + assert (size_change
                (Create now_id now_createdAt now_publicationDate req)
                (post_videos now_id now_createdAt now_publicationDate req
                   videos).1 = 0) as ->; [|lia].
      destruct (post_videos _ _ _ req videos) as [answer videos'] eqn:Hpost.
      cbn [fst] in *.
      destruct answer as [[| |code answer]|]; cbn [size_change]; try done.
      destruct (decide (code = 201)) as [->|Hcode].
      * apply post_videos_created in Hpost as (newVideo & -> & _).
        by destruct (Hnot newVideo).
      * by repeat case_match.
    + cbn [fst snd created size_change]. rewrite length_app. cbn. lia.
  - assert (size_change (Update req) (put_videos_id req videos).1 = 0) as ->
      by (by destruct (put_videos_id req videos).1 as [[]|]).
    destruct (put_videos_id_store req videos)
      as [->|(k & video & _ & _ & ->)]; [lia|]. rewrite length_insert. lia.
  - destruct (delete_videos_id_cases req videos)
      as [[_ ->]|(k & video & Hk & _ & _ & ->)]; cbn [fst snd size_change].
    + lia.
    + rewrite length_delete by (by exists video).
      apply lookup_lt_Some in Hk. lia.
Qed.

(** **** X13.  Along any sequence of requests the number of stored entities
    is the number there was, plus one for every Create answered 201, minus
    one for every Delete answered [res.send(204)]: a request that is
    refused, that throws, or an Update, a Get or a List, never changes the
    number of entities. *)
Theorem run_length (ops : list Operation) (videos : list object) :
  Z.of_nat (length (run ops videos)) =
  Z.of_nat (length videos)
  + foldr Z.add 0 (zip_with size_change ops (answers ops videos)).
Proof.
  revert videos. induction ops as [|op ops IH]; intros videos.
  { cbn. lia. }
  rewrite run_cons, IH, perform_length. cbn [answers zip_with foldr]. lia.
Qed.

(** **** X14.  A request changes the store only when it succeeds: whenever
    the store after a request differs from the store before it, the request
    is a Create answered 201, an Update answered 204 or a Delete answered
    [res.send(204)].  An answer 400 or 404, an exception, a Get and a List
    leave the store as it was. *)
Theorem perform_changes_on_success (op : Operation) (videos : list object) :
  (perform op videos).2 = videos
  ∨ (∃ now_id now_createdAt now_publicationDate req newVideo,
       op = Create now_id now_createdAt now_publicationDate req ∧
       perform op videos = (created newVideo, videos ++ [newVideo]))
  ∨ (∃ req, op = Update req ∧
            (perform op videos).1 = Returns (res_status_send 204))
  ∨ (∃ req, op = Delete req ∧
            (perform op videos).1 = Returns (res_send (VNum 204))).
Proof.
  destruct op as [|req|now_id now_createdAt now_publicationDate req|req|req];
    cbn [perform].
  - by left.
  - left. unfold get_videos_id. by destruct (negb _).
  - destruct (post_videos_cases now_id now_createdAt now_publicationDate req
                videos) as [[-> _]|(_ & ? & ? & _ & _ & ->)]; [by left|].
    right. left. by eexists _, _, _, _, _.
  - destruct (validateVideoInput req) as [[|error errors]|e] eqn:Hvalid.
    + destruct (put_videos_id_cases req videos Hvalid)
        as [[_ ->]|(? & ? & _ & _ & _ & ->)]; [by left|].
      right. right. left. by exists req.
    + left. by rewrite (put_videos_id_invalid _ _ (error :: errors)).
    + left. unfold put_videos_id. by rewrite Hvalid.
  - destruct (delete_videos_id_cases req videos)
      as [[_ ->]|(? & ? & _ & _ & _ & ->)]; [by left|].
    right. right. right. by exists req.
Qed.

(** ** What every stored entity satisfies *)

Lemma get_union_l (payload video : object) (key : string) :
  get payload key ≠ VUndefined →
  get (payload ∪ video) key = get payload key.
Proof.
  unfold get. rewrite lookup_union.
  destruct (payload !! key); [by destruct (video !! key)|done].
Qed.

Lemma valid_payload_spread (payload video : object) :
  valid_payload payload → valid_payload (payload ∪ video).
Proof.
  intros ((s & Hs & ?) & (s' & Hs' & ?) & (items & Hitems & ?)).
  repeat split.
  - exists s. split; [|done]. rewrite get_union_l; [done|]. by rewrite Hs.
  - exists s'. split; [|done]. rewrite get_union_l; [done|]. by rewrite Hs'.
  - exists items. split; [|done].
    rewrite get_union_l; [done|]. by rewrite Hitems.
Qed.

Lemma valid_payload_newVideo_of now_id createdAt publicationDate body :
  valid_payload body →
  valid_payload (newVideo_of now_id createdAt publicationDate body).
Proof.
  intros ((s & Hs & ?) & (s' & Hs' & ?) & (items & Hitems & ?)).
  destruct (get_newVideo_of now_id createdAt publicationDate body)
    as (_ & Htitle & Hauthor & _ & _ & _ & _ & Hresolutions).
  repeat split.
  - exists s. by rewrite Htitle.
  - exists s'. by rewrite Hauthor.
  - exists items. by rewrite Hresolutions, Hitems.
Qed.

Lemma perform_well_formed (op : Operation) (videos : list object) :
  Forall (λ video, valid_payload video ∧ entity_keys ⊆ dom video) videos →
  Forall (λ video, valid_payload video ∧ entity_keys ⊆ dom video)
    (perform op videos).2.
Proof.
  intros Hvideos.
  destruct op as [|req|now_id now_createdAt now_publicationDate req|req|req];
    cbn [perform].
  - done.
  - unfold get_videos_id. by destruct (negb _).
  - destruct (post_videos_cases now_id now_createdAt now_publicationDate req
                videos) as [[-> _]|(Hvalid & ? & ? & _ & _ & ->)]; [done|].
    cbn [snd]. apply Forall_app. split; [done|].
    apply Forall_singleton. split.
    + by apply valid_payload_newVideo_of, validateVideoInput_nil_valid.
    + by rewrite dom_newVideo_of.
  - destruct (validateVideoInput req) as [[|error errors]|e] eqn:Hvalid.
    + destruct (put_videos_id_cases req videos Hvalid)
        as [[_ ->]|(k & video & Hk & _ & _ & ->)]; [done|].
      cbn [snd]. apply Forall_insert; [done|].
      rewrite Forall_forall in Hvideos.
      apply list_elem_of_lookup_2, Hvideos in Hk as [_ Hkeys]. split.
      * by apply valid_payload_spread, validateVideoInput_nil_valid.
      * rewrite dom_union_L. etrans; [exact Hkeys|apply union_subseteq_r].
    + by rewrite (put_videos_id_invalid _ _ (error :: errors)).
    + unfold put_videos_id. by rewrite Hvalid.
  - destruct (delete_videos_id_cases req videos)
      as [[_ ->]|(k & ? & _ & _ & _ & ->)]; [done|].
    cbn [snd]. by apply Forall_delete.
Qed.

(** **** X15.  Whatever the requests served since the store was empty, every
    stored entity has a [title] of 1 to 40 characters, an [author] of 1 to
    20 characters and an array of values of the enum as
    [availableResolutions], and it has the eight properties a Create gives
    an entity: an Update has to bring a valid [title], [author] and
    [availableResolutions] of its own, and it can add properties but never
    removes one. *)
Theorem run_well_formed (ops : list Operation) :
  Forall (λ video, valid_payload video ∧ entity_keys ⊆ dom video)
    (run ops []).
Proof.
  assert (∀ videos,
    Forall (λ video, valid_payload video ∧ entity_keys ⊆ dom video) videos →
    Forall (λ video, valid_payload video ∧ entity_keys ⊆ dom video)
      (run ops videos)) as Hrun; [|by apply Hrun].
  induction ops as [|op ops IH]; intros videos Hvideos; [done|].
  rewrite run_cons. by apply IH, perform_well_formed.
Qed.

(** ** The messages of the validator *)

(** **** X16.  When the entity validator returns, its list is exactly the
    messages the field validator returned for the three rules, in rule
    order: no message that [validateField] returned is dropped by the test
    [if (validationError)], because none is the empty string, and nothing
    else is in the list, which has at most three messages. *)
Theorem validateVideoInput_messages (req : Request)
    (validationErrors : list string) :
  validateVideoInput req = Returns validationErrors →
  (∃ results,
     Forall2 (λ rule result,
                validateField (get req.(body) rule.(fieldName)) rule
                = Returns result)
       validationRules results ∧
     validationErrors = omap id results) ∧
  (∀ rule message,
     rule ∈ validationRules →
     validateField (get req.(body) rule.(fieldName)) rule
     = Returns (Some message) →
     message ∈ validationErrors) ∧
  (length validationErrors ≤ 3)%nat ∧
  Forall (λ message, message ≠ "") validationErrors.
Proof.
  intros (title & author & resolutions & Htitle & Hauthor & Hresolutions & ->)
    %validateVideoInput_inv.
  split; [|split; [|split]].
  - exists [title; author; resolutions]. split; [|done].
    unfold validationRules. by repeat constructor.
  - intros rule message Hrule Hmessage. unfold validationRules in Hrule.
    apply elem_of_cons in Hrule as [->|Hrule];
      [|apply elem_of_cons in Hrule as [->|Hrule];
        [|apply list_elem_of_singleton in Hrule as ->]];
      cbn [fieldName] in Hmessage.
    + assert (title = Some message) as -> by congruence.
      apply list_elem_of_here.
    + assert (author = Some message) as -> by congruence.
      destruct title; cbn; [apply list_elem_of_further|];
        apply list_elem_of_here.
    + assert (resolutions = Some message) as -> by congruence.
      destruct title, author; cbn;
        repeat (first [apply list_elem_of_here|apply list_elem_of_further]).
  - destruct title, author, resolutions; cbn; lia.
  - destruct title as [title|]; [apply validateField_message in Htitle|];
      destruct author as [author|];
      [apply validateField_message in Hauthor| |
       apply validateField_message in Hauthor|];
      destruct resolutions as [resolutions|];
      try apply validateField_message in Hresolutions;
      cbn; by repeat constructor.
Qed.

Lemma validateVideoInput_messages_witness :
  let req := {| params_id := None;
                body := list_to_map
                  [("title", VStr ""); ("availableResolutions", VNum 7)] |} in
  let validationErrors :=
    ["Invalid title length (minimum 1 characters).";
     "author is required."; "availableResolutions must be an array."] in
  validateVideoInput req = Returns validationErrors ∧
  (∃ results,
     Forall2 (λ rule result,
                validateField (get req.(body) rule.(fieldName)) rule
                = Returns result)
       validationRules results ∧
     validationErrors = omap id results) ∧
  (∀ rule message,
     rule ∈ validationRules →
     validateField (get req.(body) rule.(fieldName)) rule
     = Returns (Some message) →
     message ∈ validationErrors) ∧
  (length validationErrors ≤ 3)%nat ∧
  Forall (λ message, message ≠ "") validationErrors.
Proof.
  intros req validationErrors.
  assert (validateVideoInput req = Returns validationErrors) as Hvalidation
    by (vm_compute; reflexivity).
  split; [exact Hvalidation|].
  exact (validateVideoInput_messages req _ Hvalidation).
Defined.
